(** * The PostgreSQL tool server of [src/index.ts]: statement guard and tool dispatch

    A shallow embedding of the four tool handlers of [PostgresMCPServer]
    ([executeQuery], [listTables], [describeTable], [getTableData]) and of the
    [CallToolRequestSchema] handler that dispatches to them, together with the
    parts of the JavaScript runtime they rely on: strings, the regular
    expression of the statement guard, [JSON.stringify], and the zod schemas
    that validate the arguments.

    Strings.  A JavaScript string is a sequence of UTF-16 code units.  The
    embedding covers the strings whose code units lie in U+0000..U+00FF and
    writes them as [string], one [ascii] per code unit. *)

From Stdlib Require Import Bool List String Ascii NArith ZArith Lia.
From Stdlib Require Import SpecFloat Sorted Permutation DecimalString.
Import ListNotations.
Set Warnings "-register-all".
Local Open Scope string_scope.
Local Open Scope list_scope.

(** ** Code units and the string methods used by the guard *)

Definition code (c : ascii) : N := N_of_ascii c.

Definition in_range (lo hi : N) (c : ascii) : bool :=
  ((lo <=? code c) && (code c <=? hi))%N.

(** [WhiteSpace] and [LineTerminator] of ECMAScript, which [String.prototype.trim]
    strips and the class escape [\s] matches: TAB, LF, VT, FF, CR, SP and
    NBSP are the ones below U+0100. *)
Definition isWhiteSpace (c : ascii) : bool :=
  in_range 9 13 c || (code c =? 32)%N || (code c =? 160)%N.

(** The word characters of [\b] and [\w]: [A-Za-z0-9_]. *)
Definition isWordCharacter (c : ascii) : bool :=
  in_range 97 122 c || in_range 65 90 c || in_range 48 57 c || (code c =? 95)%N.

(** [String.prototype.toLowerCase], one code unit at a time: the upper-case
    letters below U+0100 are A-Z, U+00C0..U+00D6 and U+00D8..U+00DE, each 32
    below its lower-case form.  The strings of this development hold code
    units below U+0100 only; of the code units above, U+212A and U+212B
    have their lower-case forms ([k] and U+00E5) in this range. *)
Definition toLowerCase_unit (c : ascii) : ascii :=
  if in_range 65 90 c || in_range 192 214 c || in_range 216 222 c
  then ascii_of_N (code c + 32)
  else c.

Fixpoint toLowerCase (s : string) : string :=
  match s with
  | EmptyString => EmptyString
  | String c s' => String (toLowerCase_unit c) (toLowerCase s')
  end.

Fixpoint trimStart (s : string) : string :=
  match s with
  | EmptyString => EmptyString
  | String c s' => if isWhiteSpace c then trimStart s' else s
  end.

Fixpoint trimEnd (s : string) : string :=
  match s with
  | EmptyString => EmptyString
  | String c s' =>
      match trimEnd s' with
      | EmptyString => if isWhiteSpace c then EmptyString else String c EmptyString
      | t => String c t
      end
  end.

(** [String.prototype.trim] strips both ends. *)
Definition trim (s : string) : string := trimEnd (trimStart s).

(** [s.startsWith(p)]. *)
Definition startsWith (s p : string) : bool := String.prefix p s.

(** ** Regular expressions

    The fragment of the ECMAScript pattern language that the guard's
    pattern is written in, with the [i] flag and without the [u] flag. *)

Inductive regex : Type :=
| Empty                          (* the empty alternative *)
| Char (c : ascii)               (* a pattern character *)
| ClassWhiteSpace                (* \s *)
| WordBoundary                   (* \b *)
| Seq (r1 r2 : regex)            (* r1 r2 *)
| Alt (r1 r2 : regex)            (* r1 | r2 *)
| Plus (r : regex).              (* r+ , greedy *)

(** The upper-casing of one code unit, as a sequence of code units
    (U+00DF has a two-letter upper case, U+00B5 and U+00FF leave Latin-1). *)
Definition toUpperCase_unit (c : ascii) : list N :=
  if in_range 97 122 c || in_range 224 246 c || in_range 248 254 c
  then [(code c - 32)%N]
  else if (code c =? 223)%N then [83%N; 83%N]
  else if (code c =? 181)%N then [924%N]
  else if (code c =? 255)%N then [376%N]
  else [code c].

(** [Canonicalize(ch)] of the specification, for [IgnoreCase] without
    [Unicode]: the upper-casing when it is a single code unit, except that a
    non-ASCII unit never folds to an ASCII one. *)
Definition Canonicalize (c : ascii) : N :=
  match toUpperCase_unit c with
  | [cu] => if ((128 <=? code c) && (cu <? 128))%N then code c else cu
  | _ => code c
  end.

(** A match state: the code unit just before the current position (none at
    the start of the input) and the input from the current position on. *)
Definition MatchState : Type := (option ascii * string)%type.

Definition rest (x : MatchState) : string := snd x.

Definition current (x : MatchState) : option ascii :=
  match rest x with
  | EmptyString => None
  | String c _ => Some c
  end.

Definition IsWordChar (c : option ascii) : bool :=
  match c with
  | Some c => isWordCharacter c
  | None => false
  end.

(** [RepeatMatcher] for an unbounded greedy quantifier.  [min0] says that
    the minimum count has been reached; from then on an iteration that
    consumes nothing is dropped.  The states are listed in backtracking order. *)
Fixpoint RepeatMatcher (m : MatchState -> list MatchState) (fuel : nat)
    (min0 : bool) (x : MatchState) : list MatchState :=
  match fuel with
  | O => if min0 then [x] else []
  | S fuel' =>
      flat_map
        (fun y =>
           if min0 && (String.length (rest y) =? String.length (rest x))%nat
           then []
           else RepeatMatcher m fuel' true y)
        (m x)
      ++ (if min0 then [x] else [])
  end.

(** All the ways a pattern matches at a state, in backtracking order. *)
Fixpoint matcher (r : regex) (x : MatchState) : list MatchState :=
  match r with
  | Empty => [x]
  | Char c =>
      match rest x with
      | String d s' =>
          if (Canonicalize d =? Canonicalize c)%N then [(Some d, s')] else []
      | EmptyString => []
      end
  | ClassWhiteSpace =>
      match rest x with
      | String d s' => if isWhiteSpace d then [(Some d, s')] else []
      | EmptyString => []
      end
  | WordBoundary =>
      if xorb (IsWordChar (fst x)) (IsWordChar (current x)) then [x] else []
  | Seq r1 r2 => flat_map (matcher r2) (matcher r1 x)
  | Alt r1 r2 => matcher r1 x ++ matcher r2 x
  | Plus r' => RepeatMatcher (matcher r') (S (String.length (rest x))) false x
  end.

(** [RegExpBuiltinExec] for a pattern that is neither global nor sticky: the
    match is tried at every index from 0 to the length of the input. *)
Fixpoint search (r : regex) (prev : option ascii) (s : string) : bool :=
  match matcher r (prev, s) with
  | _ :: _ => true
  | [] =>
      match s with
      | EmptyString => false
      | String c s' => search r (Some c) s'
      end
  end.

(** [pattern.test(s)]. *)
Definition test (r : regex) (s : string) : bool := search r None s.

(** A run of pattern characters. *)
Fixpoint literal (w : string) : regex :=
  match w with
  | EmptyString => Empty
  | String c w' => Seq (Char c) (literal w')
  end.

(** ** The statement guard of [executeQuery] *)

(** [/\b(DROP|DELETE|TRUNCATE|ALTER|CREATE|INSERT|UPDATE)\s+/i] *)
Definition dangerousPatterns : list regex :=
  [ Seq WordBoundary
      (Seq (Alt (literal "DROP")
           (Alt (literal "DELETE")
           (Alt (literal "TRUNCATE")
           (Alt (literal "ALTER")
           (Alt (literal "CREATE")
           (Alt (literal "INSERT")
                (literal "UPDATE")))))))
           (Plus ClassWhiteSpace)) ].

Definition isDangerous (sql : string) : bool :=
  existsb (fun pattern => test pattern sql) dangerousPatterns.

(** The condition under which [executeQuery] throws before it touches the pool. *)
Definition guardRejects (sql : string) : bool :=
  isDangerous sql && negb (startsWith (toLowerCase (trim sql)) "select").

Definition guardMessage : string :=
  "Only SELECT queries are allowed for security reasons".

(** ** JavaScript values

    The arguments of a tool call, the rows the driver returns and the
    payloads handed to [JSON.stringify] are JSON-like values.  A number is an
    IEEE 754 double.  The properties of an object are listed in enumeration
    order. *)

Inductive value : Type :=
| VUndefined
| VNull
| VBool (b : bool)
| VNumber (x : spec_float)
| VString (s : string)
| VArray (elems : list value)
| VObject (props : list (string * value)).

Definition number_of_Z (z : Z) : spec_float := binary_normalize 53 1024 z 0 false.

Definition isNaN (x : spec_float) : bool :=
  match x with
  | S754_nan => true
  | _ => false
  end.

Definition isFinite (x : spec_float) : bool :=
  match x with
  | S754_zero _ | S754_finite _ _ _ => true
  | S754_infinity _ | S754_nan => false
  end.

(** [obj[k]]: [undefined] when the object has no such property. *)
Fixpoint getProp (props : list (string * value)) (k : string) : value :=
  match props with
  | [] => VUndefined
  | (k', v) :: ps => if String.eqb k' k then v else getProp ps k
  end.

(** [k in obj]. *)
Fixpoint hasProp (props : list (string * value)) (k : string) : bool :=
  match props with
  | [] => false
  | (k', _) :: ps => String.eqb k' k || hasProp ps k
  end.

(** The static types under which the handlers read validated fields. *)
Definition asString (v : value) : string :=
  match v with
  | VString s => s
  | _ => ""
  end.

Definition asArray (v : value) : list value :=
  match v with
  | VArray xs => xs
  | _ => []
  end.

(** ** zod schemas *)

Inductive ZodIssueCode : Type := invalid_type | too_small.

Inductive PathSegment : Type :=
| Key (k : string)
| Index (i : nat).

(** An issue carries its code, the path of the offending value and the
    message the schema supplies, if it supplies one. *)
Record ZodIssue : Type := mkIssue {
  issue_code : ZodIssueCode;
  issue_path : list PathSegment;
  issue_message : option string
}.

(** The schema constructors [index.ts] uses, as in zod 3. *)
Inductive ZodType : Type :=
| ZodString (min : option (nat * string))     (* z.string() and z.string().min(n, message) *)
| ZodNumber (positive : bool)                 (* z.number() and z.number().positive() *)
| ZodAny                                      (* z.any() *)
| ZodArray (element : ZodType)                (* z.array(element) *)
| ZodOptional (inner : ZodType)               (* inner.optional() *)
| ZodDefault (inner : ZodType) (def : value)  (* inner.default(def) *)
| ZodObject (shape : list (string * ZodType)). (* z.object(shape) *)

Definition ParseReturn : Type := (value + list ZodIssue)%type.

Definition issuesOf (r : ParseReturn) : list ZodIssue :=
  match r with
  | inl _ => []
  | inr issues => issues
  end.

(** An array or object is valid when every member is; otherwise the issues
    of all members are reported together. *)
Definition mergeArray (rs : list ParseReturn) : ParseReturn :=
  match flat_map issuesOf rs with
  | [] => inl (VArray (flat_map (fun r => match r with inl v => [v] | inr _ => [] end) rs))
  | issues => inr issues
  end.

(** A parsed member is set in the output when it has a value or when its
    key is present in the input. *)
Definition member (input : list (string * value)) (kr : string * ParseReturn)
    : list (string * value) :=
  match snd kr with
  | inl VUndefined => if hasProp input (fst kr) then [(fst kr, VUndefined)] else []
  | inl v => [(fst kr, v)]
  | inr _ => []
  end.

Definition mergeObject (input : list (string * value))
    (rs : list (string * ParseReturn)) : ParseReturn :=
  match flat_map (fun kr => issuesOf (snd kr)) rs with
  | [] => inl (VObject (flat_map (member input) rs))
  | issues => inr issues
  end.

(** [schema._parse] at a path.  Unknown keys of an object are stripped. *)
Fixpoint parseAt (t : ZodType) (path : list PathSegment) (v : value) {struct t}
    : ParseReturn :=
  match t with
  | ZodString min =>
      match v with
      | VString s =>
          match min with
          | Some (n, message) =>
              if (String.length s <? n)%nat
              then inr [mkIssue too_small path (Some message)]
              else inl v
          | None => inl v
          end
      | _ => inr [mkIssue invalid_type path None]
      end
  | ZodNumber positive =>
      match v with
      | VNumber x =>
          if isNaN x then inr [mkIssue invalid_type path None]
          else if positive && SFleb x (S754_zero false)
               then inr [mkIssue too_small path None]
               else inl v
      | _ => inr [mkIssue invalid_type path None]
      end
  | ZodAny => inl v
  | ZodArray element =>
      match v with
      | VArray xs =>
          mergeArray
            ((fix items (i : nat) (xs : list value) : list ParseReturn :=
                match xs with
                | [] => []
                | x :: xs' => parseAt element (path ++ [Index i]) x :: items (S i) xs'
                end) O xs)
      | _ => inr [mkIssue invalid_type path None]
      end
  | ZodOptional inner =>
      match v with
      | VUndefined => inl VUndefined
      | _ => parseAt inner path v
      end
  | ZodDefault inner def =>
      match v with
      | VUndefined => parseAt inner path def
      | _ => parseAt inner path v
      end
  | ZodObject shape =>
      match v with
      | VObject props =>
          mergeObject props
            ((fix members (shape : list (string * ZodType)) : list (string * ParseReturn) :=
                match shape with
                | [] => []
                | (k, field) :: shape' =>
                    (k, parseAt field (path ++ [Key k]) (getProp props k)) :: members shape'
                end) shape)
      | _ => inr [mkIssue invalid_type path None]
      end
  end.

(** [schema.safeParse(data)]. *)
Definition safeParse (t : ZodType) (data : value) : ParseReturn := parseAt t [] data.

Fixpoint deoptional (t : ZodType) : ZodType :=
  match t with
  | ZodOptional inner => deoptional inner
  | _ => t
  end.

(** [schema.required(mask)]: the masked fields lose their [optional()] wrappers. *)
Definition required (mask : list string) (t : ZodType) : ZodType :=
  match t with
  | ZodObject shape =>
      ZodObject
        (map (fun kf => if existsb (String.eqb (fst kf)) mask
                        then (fst kf, deoptional (snd kf))
                        else kf) shape)
  | _ => t
  end.

(** The validation schemas at the top of [index.ts]. *)
Definition QuerySchema : ZodType :=
  ZodObject
    [ ("sql", ZodString (Some (1%nat, "SQL query cannot be empty")));
      ("params", ZodDefault (ZodOptional (ZodArray ZodAny)) (VArray [])) ].

Definition TableSchema : ZodType :=
  ZodObject
    [ ("schema", ZodDefault (ZodOptional (ZodString None)) (VString "public"));
      ("table", ZodOptional (ZodString None)) ].

Definition ten : spec_float := number_of_Z 10.

(** The schema local to [getTableData]. *)
Definition TableDataSchema : ZodType :=
  ZodObject
    [ ("table", ZodString (Some (1%nat, "Table name cannot be empty")));
      ("schema", ZodDefault (ZodOptional (ZodString None)) (VString "public"));
      ("limit", ZodDefault (ZodOptional (ZodNumber true)) (VNumber ten)) ].

(** ** Runtime primitives taken as given

    Three texts are left to the runtime: [Number::toString] on a finite
    double, the [message] getter of a [ZodError], and the message of the
    [TypeError] thrown on reading a property of [undefined]. *)

Class Runtime : Type := {
  Number_toString : spec_float -> string;
  ZodError_message : list ZodIssue -> string;
  TypeError_message : string -> string
}.

(** ** [JSON.stringify(value, null, 2)] *)

Definition quote : string := String (ascii_of_N 34) EmptyString.
Definition newline : string := String (ascii_of_N 10) EmptyString.
Definition gap : string := "  ".

Definition hexDigit (n : N) : ascii :=
  if (n <? 10)%N then ascii_of_N (48 + n) else ascii_of_N (87 + n).

(** One code unit of [QuoteJSONString]. *)
Definition quoteUnit (c : ascii) : string :=
  let n := code c in
  if (n =? 8)%N then "\b"
  else if (n =? 9)%N then "\t"
  else if (n =? 10)%N then "\n"
  else if (n =? 12)%N then "\f"
  else if (n =? 13)%N then "\r"
  else if (n =? 34)%N then "\" ++ quote
  else if (n =? 92)%N then "\\"
  else if (n <? 32)%N
       then "\u00" ++ String (hexDigit (n / 16)) (String (hexDigit (n mod 16)) EmptyString)
       else String c EmptyString.

Fixpoint quoteUnits (s : string) : string :=
  match s with
  | EmptyString => EmptyString
  | String c s' => quoteUnit c ++ quoteUnits s'
  end.

Definition QuoteJSONString (s : string) : string := quote ++ quoteUnits s ++ quote.

(** The bracketed, indented layout shared by arrays and objects. *)
Definition wrap (open close stepback indent : string) (partial : list string) : string :=
  match partial with
  | [] => open ++ close
  | _ =>
      open ++ newline ++ indent
        ++ String.concat ("," ++ newline ++ indent) partial
        ++ newline ++ stepback ++ close
  end.

Section Serialize.
Context {RT : Runtime}.

(** [SerializeJSONProperty]: [None] stands for [undefined].  An undefined
    element of an array is written [null]; an undefined property of an
    object is left out. *)
Fixpoint SerializeJSONProperty (indent : string) (v : value) {struct v} : option string :=
  match v with
  | VUndefined => None
  | VNull => Some "null"
  | VBool b => Some (if b then "true" else "false")
  | VNumber x => Some (if isFinite x then Number_toString x else "null")
  | VString s => Some (QuoteJSONString s)
  | VArray elems =>
      let stepback := indent in
      let indent := (indent ++ gap)%string in
      Some (wrap "[" "]" stepback indent
              ((fix items (xs : list value) : list string :=
                  match xs with
                  | [] => []
                  | x :: xs' =>
                      match SerializeJSONProperty indent x with
                      | Some str => str
                      | None => "null"
                      end :: items xs'
                  end) elems))
  | VObject props =>
      let stepback := indent in
      let indent := (indent ++ gap)%string in
      Some (wrap "{" "}" stepback indent
              ((fix members (ps : list (string * value)) : list string :=
                  match ps with
                  | [] => []
                  | (k, x) :: ps' =>
                      match SerializeJSONProperty indent x with
                      | Some str => (QuoteJSONString k ++ ": " ++ str)%string :: members ps'
                      | None => members ps'
                      end
                  end) props))
  end.

Definition JSON_stringify (v : value) : option string := SerializeJSONProperty "" v.

(** The members an object is written with: those whose value is defined. *)
Definition objectMembers (indent : string) (props : list (string * value)) : list string :=
  flat_map
    (fun kx =>
       match SerializeJSONProperty indent (snd kx) with
       | Some str => [(QuoteJSONString (fst kx) ++ ": " ++ str)%string]
       | None => []
       end) props.

End Serialize.

(** ** The connection pool and the tool protocol *)

Record FieldDef : Type := mkField {
  name : string;
  dataTypeID : spec_float
}.

(** One result of the driver, with the members the handlers read: [rows] is
    an array and [rowCount] a number or [null]; [fields] is [None] when the
    member is undefined or [null], which is the case [result.fields?.map(...)]
    provides for. *)
Record QueryResult : Type := mkResult {
  rows : list value;
  rowCount : option spec_float;
  fields : option (list FieldDef)
}.

(** What [await client.query(sql, params)] resolves with.  It is one result,
    or, for a text that holds several statements and is sent without
    parameters, the array of the results of the statements. *)
Inductive Resolved : Type :=
| OneResult (result : QueryResult)
| ManyResults (results : list QueryResult).

(** [result.rows], [result.rowCount] and [result.fields] as read from the
    resolved value: an array has none of these members, so each of them reads
    as [undefined] there. *)
Definition resultRows (result : Resolved) : value :=
  match result with
  | OneResult r => VArray (rows r)
  | ManyResults _ => VUndefined
  end.

Definition resultRowCount (result : Resolved) : value :=
  match result with
  | OneResult r =>
      match rowCount r with
      | Some n => VNumber n
      | None => VNull
      end
  | ManyResults _ => VUndefined
  end.

Definition resultFields (result : Resolved) : option (list FieldDef) :=
  match result with
  | OneResult r => fields r
  | ManyResults _ => None
  end.

(** The pool as the handlers see it: [pool.connect()] resolves with a client
    or rejects with an error message; [client.query(sql, params)] resolves
    with a result or rejects; [client.release()] hands the client back.  Each
    of them may change the world outside. *)
Class PgPool : Type := {
  World : Type;
  PoolClient : Type;
  pool_connect : World -> (string + PoolClient) * World;
  client_query : PoolClient -> string -> list value -> World -> (string + Resolved) * World;
  client_release : PoolClient -> World -> World
}.

Inductive ErrorCode : Type := InvalidParams | MethodNotFound | InternalError.

(** What a handler throws: an [McpError], or another [Error] (of the driver
    or of the runtime) with its message. *)
Inductive exn : Type :=
| McpError (code : ErrorCode) (message : string)
| Error (message : string).

Record ContentItem : Type := mkContent {
  type : string;
  text : option string
}.

Record ToolResponse : Type := mkResponse {
  content : list ContentItem
}.

Inductive Outcome (A : Type) : Type :=
| Returned (a : A)
| Thrown (e : exn).
Arguments Returned {A} a.
Arguments Thrown {A} e.

(** ** The SQL texts of the introspection handlers, as written in the source *)

Definition listTablesSql : string :=
  "SELECT table_name, table_type " ++ newline ++
  "         FROM information_schema.tables " ++ newline ++
  "         WHERE table_schema = $1 " ++ newline ++
  "         ORDER BY table_name".

Definition columnsSql : string :=
  "SELECT " ++ newline ++
  "           column_name," ++ newline ++
  "           data_type," ++ newline ++
  "           is_nullable," ++ newline ++
  "           column_default," ++ newline ++
  "           character_maximum_length," ++ newline ++
  "           numeric_precision," ++ newline ++
  "           numeric_scale" ++ newline ++
  "         FROM information_schema.columns " ++ newline ++
  "         WHERE table_schema = $1 AND table_name = $2" ++ newline ++
  "         ORDER BY ordinal_position".

Definition constraintsSql : string :=
  "SELECT " ++ newline ++
  "           tc.constraint_name," ++ newline ++
  "           tc.constraint_type," ++ newline ++
  "           kcu.column_name" ++ newline ++
  "         FROM information_schema.table_constraints tc" ++ newline ++
  "         JOIN information_schema.key_column_usage kcu " ++ newline ++
  "           ON tc.constraint_name = kcu.constraint_name" ++ newline ++
  "         WHERE tc.table_schema = $1 AND tc.table_name = $2".

Definition tableDataSql (schemaName table : string) : string :=
  "SELECT * FROM " ++ schemaName ++ "." ++ table ++ " LIMIT $1".

(** The property [k] of a validated record. *)
Definition field (data : value) (k : string) : value :=
  match data with
  | VObject props => getProp props k
  | _ => VUndefined
  end.

(** ** The handlers

    A handler is a computation over the world outside that returns or
    throws, and that leaves a record of its calls to the pool. *)

Section Server.
Context {RT : Runtime} {PG : PgPool}.

Inductive Event : Type :=
| EvConnectFailed
| EvAcquire (client : PoolClient)
| EvQuery (client : PoolClient) (sql : string) (params : list value)
| EvRelease (client : PoolClient).

Record Ran (A : Type) : Type := mkRan {
  outcome : Outcome A;
  world : World;
  events : list Event
}.
Arguments mkRan {A} _ _ _.
Arguments outcome {A} _.
Arguments world {A} _.
Arguments events {A} _.

Definition M (A : Type) : Type := World -> Ran A.

Definition ret {A : Type} (a : A) : M A := fun w => mkRan (Returned a) w [].

Definition throw {A : Type} (e : exn) : M A := fun w => mkRan (Thrown e) w [].

Definition bind {A B : Type} (m : M A) (k : A -> M B) : M B := fun w =>
  let r1 := m w in
  match outcome r1 with
  | Returned a =>
      let r2 := k a (world r1) in
      mkRan (outcome r2) (world r2) (events r1 ++ events r2)
  | Thrown e => mkRan (Thrown e) (world r1) (events r1)
  end.

Notation "x <- m ;; k" := (bind m (fun x => k))
  (at level 61, m at next level, right associativity).

(** [try { m } catch (error) { handler }]. *)
Definition catch {A : Type} (m : M A) (handler : exn -> M A) : M A := fun w =>
  let r1 := m w in
  match outcome r1 with
  | Returned a => r1
  | Thrown e =>
      let r2 := handler e (world r1) in
      mkRan (outcome r2) (world r2) (events r1 ++ events r2)
  end.

(** [await this.pool.connect()] *)
Definition connect : M PoolClient := fun w =>
  match pool_connect w with
  | (inr client, w') => mkRan (Returned client) w' [EvAcquire client]
  | (inl message, w') => mkRan (Thrown (Error message)) w' [EvConnectFailed]
  end.

(** [await client.query(sql, params)] *)
Definition query (client : PoolClient) (sql : string) (params : list value)
    : M Resolved := fun w =>
  match client_query client sql params w with
  | (inr result, w') => mkRan (Returned result) w' [EvQuery client sql params]
  | (inl message, w') => mkRan (Thrown (Error message)) w' [EvQuery client sql params]
  end.

(** [client.release()] *)
Definition release (client : PoolClient) : M unit := fun w =>
  mkRan (Returned tt) (client_release client w) [EvRelease client].

(** The block every handler ends with:
    [let client; try { client = await this.pool.connect(); body }
     finally { if (client) { client.release(); } }].
    When [connect] rejects, [client] is still undefined and nothing is
    released; otherwise the client is released whether [body] returns or throws. *)
Definition withClient {A : Type} (body : PoolClient -> M A) : M A := fun w =>
  let r1 := connect w in
  match outcome r1 with
  | Thrown e => mkRan (Thrown e) (world r1) (events r1)
  | Returned client =>
      let r2 := body client (world r1) in
      let r3 := release client (world r2) in
      mkRan (outcome r2) (world r3) (events r1 ++ events r2 ++ events r3)
  end.

Definition invalidParameters {A : Type} (issues : list ZodIssue) : M A :=
  throw (McpError InvalidParams ("Invalid parameters: " ++ ZodError_message issues)).

Definition textResponse (payload : value) : ToolResponse :=
  mkResponse [mkContent "text" (JSON_stringify payload)].

Definition fieldPayload (f : FieldDef) : value :=
  VObject [("name", VString (name f)); ("dataTypeID", VNumber (dataTypeID f))].

(** [result.fields?.map(field => ({ name: ..., dataTypeID: ... }))] *)
Definition mappedFields (result : Resolved) : value :=
  match resultFields result with
  | Some fs => VArray (map fieldPayload fs)
  | None => VUndefined
  end.

Definition queryPayload (result : Resolved) : value :=
  VObject
    [ ("rows", resultRows result);
      ("rowCount", resultRowCount result);
      ("fields", mappedFields result) ].

(** The guarded part of [executeQuery]: acquire, execute, serialize, release. *)
Definition runQuery (sql : string) (params : list value) : M ToolResponse :=
  withClient (fun client =>
    result <- query client sql params ;;
    ret (textResponse (queryPayload result))).

Definition executeQuery (args : value) : M ToolResponse :=
  match safeParse QuerySchema args with
  | inr issues => invalidParameters issues
  | inl data =>
      let sql := asString (field data "sql") in
      let params := asArray (field data "params") in
      if guardRejects sql
      then throw (McpError InvalidParams guardMessage)
      else runQuery sql params
  end.

Definition listTables (args : value) : M ToolResponse :=
  match safeParse TableSchema args with
  | inr issues => invalidParameters issues
  | inl data =>
      let schema := asString (field data "schema") in
      withClient (fun client =>
        result <- query client listTablesSql [VString schema] ;;
        ret (textResponse
               (VObject [("schema", VString schema); ("tables", resultRows result)])))
  end.

Definition describeTable (args : value) : M ToolResponse :=
  match safeParse (required ["table"] TableSchema) args with
  | inr issues => invalidParameters issues
  | inl data =>
      let schema := asString (field data "schema") in
      let table := asString (field data "table") in
      withClient (fun client =>
        columnsResult <- query client columnsSql [VString schema; VString table] ;;
        constraintsResult <- query client constraintsSql [VString schema; VString table] ;;
        ret (textResponse
               (VObject
                  [ ("table", VString (schema ++ "." ++ table));
                    ("columns", resultRows columnsResult);
                    ("constraints", resultRows constraintsResult) ])))
  end.

Definition getTableData (args : value) : M ToolResponse :=
  match safeParse TableDataSchema args with
  | inr issues => invalidParameters issues
  | inl data =>
      let table := asString (field data "table") in
      let schemaName := asString (field data "schema") in
      let limit := field data "limit" in
      withClient (fun client =>
        result <- query client (tableDataSql schemaName table) [limit] ;;
        ret (textResponse
               (VObject
                  [ ("table", VString (schemaName ++ "." ++ table));
                    ("limit", limit);
                    ("rowCount", resultRowCount result);
                    ("data", resultRows result) ])))
  end.

(** The [catch] clause of the dispatcher: an [McpError] is rethrown,
    anything else is wrapped as [InternalError]. *)
Definition rethrow {A : Type} (name : string) (error : exn) : M A :=
  match error with
  | McpError _ _ => throw error
  | Error message =>
      throw (McpError InternalError ("Failed to execute " ++ name ++ ": " ++ message))
  end.

(** The [CallToolRequestSchema] handler: dispatch on the tool name. *)
Definition callTool (name : string) (args : value) : M ToolResponse :=
  catch
    (if String.eqb name "query_database" then executeQuery args
     else if String.eqb name "list_tables" then listTables args
     else if String.eqb name "describe_table" then describeTable args
     else if String.eqb name "get_table_data" then getTableData args
     else throw (McpError MethodNotFound ("Unknown tool: " ++ name)))
    (rethrow name).

End Server.

Arguments mkRan {PG A} _ _ _.
Arguments outcome {PG A} _.
Arguments world {PG A} _.
Arguments events {PG A} _.

(** ** The catalog query as the database reads it

    Which tables [listTables] gets, and in which order, is decided by the
    database from the text it is sent.  The texts of the shape

      SELECT column, ... FROM relation
        [WHERE column = $n [AND ...]] [ORDER BY column [ASC]]

    are read into their clauses here: key words in any casing, names
    unquoted and folded to lower case, the clauses separated by white space. *)

Record Select : Type := mkSelect {
  select_list : list string;
  from_item : string;
  where_clause : list (string * nat);   (* column = $n, joined by AND *)
  order_by : option string
}.

Definition isSqlSpace (c : ascii) : bool :=
  (code c =? 32)%N || (code c =? 9)%N || (code c =? 10)%N
  || (code c =? 13)%N || (code c =? 12)%N.

Definition flushToken (tok : string) (ts : list string) : list string :=
  match tok with
  | EmptyString => ts
  | _ => tok :: ts
  end.

(** The tokens of a text: maximal runs without white space, with [,] and
    [=] standing alone. *)
Fixpoint sqlTokens (tok : string) (text : string) : list string :=
  match text with
  | EmptyString => flushToken tok []
  | String c rest =>
      if isSqlSpace c then flushToken tok (sqlTokens "" rest)
      else if Ascii.eqb c "," || Ascii.eqb c "="
           then flushToken tok (String c EmptyString :: sqlTokens "" rest)
           else sqlTokens (tok ++ String c EmptyString) rest
  end.

Definition keyWord (kw tok : string) : bool := String.eqb (toLowerCase tok) kw.

Definition reservedWords : list string :=
  ["select"; "from"; "where"; "and"; "order"; "by"; "asc"; "desc"].

Fixpoint allUnitsOf (P : ascii -> bool) (s : string) : bool :=
  match s with
  | EmptyString => true
  | String c s' => P c && allUnitsOf P s'
  end.

(** An unquoted name, possibly qualified: letters, digits, [_] and [.],
    not starting with a digit, and not a key word. *)
Definition sqlName (tok : string) : option string :=
  match tok with
  | EmptyString => None
  | String c _ =>
      if negb (in_range 48 57 c)
         && allUnitsOf (fun u => isWordCharacter u || Ascii.eqb u ".") tok
         && negb (existsb (String.eqb (toLowerCase tok)) reservedWords)
      then Some (toLowerCase tok)
      else None
  end.

Fixpoint parseDigits (acc : nat) (s : string) : option nat :=
  match s with
  | EmptyString => Some acc
  | String c s' =>
      if in_range 48 57 c
      then parseDigits (10 * acc + N.to_nat (code c - 48)) s'
      else None
  end.

(** [$n] *)
Definition placeholder (tok : string) : option nat :=
  match tok with
  | String d (String c ds) =>
      if Ascii.eqb d "$" then parseDigits 0 (String c ds) else None
  | _ => None
  end.

(** The select list, up to and including [FROM]. *)
Fixpoint parseSelectList (ts : list string) : option (list string * list string) :=
  match ts with
  | col :: sep :: rest =>
      match sqlName col with
      | None => None
      | Some c =>
          if String.eqb sep "," then
            match parseSelectList rest with
            | Some (cs, rest') => Some (c :: cs, rest')
            | None => None
            end
          else if keyWord "from" sep then Some ([c], rest)
          else None
      end
  | _ => None
  end.

(** The conditions after [WHERE]. *)
Fixpoint parseConditions (ts : list string) : option (list (string * nat) * list string) :=
  match ts with
  | col :: eq :: ph :: rest =>
      match sqlName col, placeholder ph with
      | Some c, Some n =>
          if String.eqb eq "=" then
            match rest with
            | kw :: rest' =>
                if keyWord "and" kw then
                  match parseConditions rest' with
                  | Some (conds, rest'') => Some ((c, n) :: conds, rest'')
                  | None => None
                  end
                else Some ([(c, n)], rest)
            | [] => Some ([(c, n)], [])
            end
          else None
      | _, _ => None
      end
  | _ => None
  end.

(** What is left after the conditions: nothing, or [ORDER BY column [ASC]]. *)
Definition parseOrderBy (ts : list string) : option (option string) :=
  match ts with
  | [] => Some None
  | [o; b; col] =>
      if keyWord "order" o && keyWord "by" b
      then option_map Some (sqlName col) else None
  | [o; b; col; dir] =>
      if keyWord "order" o && keyWord "by" b && keyWord "asc" dir
      then option_map Some (sqlName col) else None
  | _ => None
  end.

Definition parseTail (cols : list string) (relation : string) (ts : list string)
    : option Select :=
  match ts with
  | kw :: rest =>
      if keyWord "where" kw then
        match parseConditions rest with
        | Some (conds, rest') =>
            option_map (mkSelect cols relation conds) (parseOrderBy rest')
        | None => None
        end
      else option_map (mkSelect cols relation []) (parseOrderBy ts)
  | [] => Some (mkSelect cols relation [] None)
  end.

Definition parseSelect (text : string) : option Select :=
  match sqlTokens "" text with
  | sel :: ts =>
      if keyWord "select" sel then
        match parseSelectList ts with
        | Some (cols, rel :: rest) =>
            match sqlName rel with
            | Some relation => parseTail cols relation rest
            | None => None
            end
        | _ => None
        end
      else None
  | [] => None
  end.

(** ** What the database answers to a query on [information_schema.tables]

    The view is kept with the three columns [listTables] is concerned with,
    all of them text.  A statement on it that names these columns only,
    binds every parameter to a text and uses all the parameters it is given
    has a plan: which tables to keep, by which column to order, and how to
    write a row. *)

Record TableEntry : Type := mkTable {
  table_schema : string;
  table_name : string;
  table_type : string
}.

Definition catalogRelation : string := "information_schema.tables".

Definition column (c : string) : option (TableEntry -> string) :=
  if String.eqb c "table_schema" then Some table_schema
  else if String.eqb c "table_name" then Some table_name
  else if String.eqb c "table_type" then Some table_type
  else None.

(** The text bound to [$n]. *)
Definition boundText (params : list value) (n : nat) : option string :=
  match n with
  | O => None
  | S i =>
      match nth_error params i with
      | Some (VString s) => Some s
      | _ => None
      end
  end.

Fixpoint selection (conds : list (string * nat)) (params : list value)
    : option (TableEntry -> bool) :=
  match conds with
  | [] => Some (fun _ => true)
  | (c, n) :: conds' =>
      match column c, boundText params n, selection conds' params with
      | Some key, Some s, Some others => Some (fun t => String.eqb (key t) s && others t)
      | _, _, _ => None
      end
  end.

Fixpoint projection (cols : list string) : option (TableEntry -> list (string * value)) :=
  match cols with
  | [] => Some (fun _ => [])
  | c :: cols' =>
      match column c, projection cols' with
      | Some key, Some others =>
          if existsb (String.eqb c) cols' then None
          else Some (fun t => (c, VString (key t)) :: others t)
      | _, _ => None
      end
  end.

Definition ordering (clause : option string) : option (option (TableEntry -> string)) :=
  match clause with
  | None => Some None
  | Some c => option_map Some (column c)
  end.

Record Plan : Type := mkPlan {
  keep : TableEntry -> bool;
  sortKey : option (TableEntry -> string);
  writeRow : TableEntry -> value
}.

(** Each of [$1] to [$n] occurs in the conditions, [n] being the number
    of parameters. *)
Definition usesAll (params : list value) (conds : list (string * nat)) : bool :=
  forallb (fun i => existsb (Nat.eqb i) (map snd conds)) (seq 1 (List.length params)).

Definition plan (q : Select) (params : list value) : option Plan :=
  if String.eqb (from_item q) catalogRelation && usesAll params (where_clause q)
  then
    match selection (where_clause q) params, ordering (order_by q),
          projection (select_list q) with
    | Some kept, Some key, Some row => Some (mkPlan kept key (fun t => VObject (row t)))
    | _, _, _ => None
    end
  else None.





(** The row of [listTables] for a table, the order of its answer and the
    tables of a schema. *)
Definition tableRow (t : TableEntry) : value :=
  VObject [("table_name", VString (table_name t)); ("table_type", VString (table_type t))].



(** ** A runtime and a pool to run the handlers on

    [sampleRuntime] writes a whole number in decimal (as [Number::toString]
    does below 10^21), lists the messages of the issues and words a
    [TypeError] as Node does.  [samplePool]
    serves one client over a fixed catalog: it answers the texts that have a
    plan, ordering by insertion, fails on the text ["SELECT 1/0"], and
    returns no rows otherwise. *)

Definition wholeNumber (x : spec_float) : string :=
  match x with
  | S754_finite s m e =>
      NilZero.string_of_int (Z.to_int (cond_Zopp s (Z.shiftl (Zpos m) e)))
  | _ => "0"
  end.

Definition issueText (i : ZodIssue) : string :=
  match issue_message i with
  | Some message => message
  | None => match issue_code i with
            | invalid_type => "Invalid type"
            | too_small => "Too small"
            end
  end.

Definition sampleRuntime : Runtime := {|
  Number_toString := wholeNumber;
  ZodError_message := fun issues => String.concat "; " (map issueText issues);
  TypeError_message := fun property =>
    ("Cannot read properties of undefined (reading '" ++ property ++ "')")%string
|}.

Fixpoint insertBy (key : TableEntry -> string) (t : TableEntry) (ts : list TableEntry)
    : list TableEntry :=
  match ts with
  | [] => [t]
  | u :: us =>
      if String.leb (key t) (key u)
      then t :: ts
      else u :: insertBy key t us
  end.

Definition sortBy (key : TableEntry -> string) (ts : list TableEntry) : list TableEntry :=
  fold_right (insertBy key) [] ts.

Definition runPlan (catalog : list TableEntry) (p : Plan) : list TableEntry :=
  match sortKey p with
  | Some key => sortBy key (filter (keep p) catalog)
  | None => filter (keep p) catalog
  end.

(** The type of a column as the driver reports it: [name] or [varchar]. *)
Definition columnType (c : string) : spec_float :=
  if String.eqb c "table_type" then number_of_Z 1043 else number_of_Z 19.

Definition sampleQuery (sql : string) (params : list value) (catalog : list TableEntry)
    : string + Resolved :=
  match parseSelect sql with
  | Some q =>
      match plan q params with
      | Some p =>
          let ts := runPlan catalog p in
          inr (OneResult
                 (mkResult (map (writeRow p) ts)
                    (Some (number_of_Z (Z.of_nat (List.length ts))))
                    (Some (map (fun c => mkField c (columnType c)) (select_list q)))))
      | None => inr (OneResult (mkResult [] (Some (number_of_Z 0)) (Some [])))
      end
  | None =>
      if String.eqb sql "SELECT 1/0" then inl "division by zero"
      else inr (OneResult (mkResult [] (Some (number_of_Z 0)) (Some [])))
  end.

Definition samplePool : PgPool := {|
  World := list TableEntry;
  PoolClient := unit;
  pool_connect := fun w => (inr tt, w);
  client_query := fun _ sql params w => (sampleQuery sql params w, w);
  client_release := fun _ w => w
|}.



Definition sampleCatalog : list TableEntry :=
  [ mkTable "public" "weather_data" "BASE TABLE";
    mkTable "audit" "log" "BASE TABLE";
    mkTable "public" "stations" "VIEW" ].

(** ** The wording of the guard's description

    The conditions the description of the guard is phrased in, to be
    compared with [isDangerous] and with the [startsWith] test of the code. *)

Definition mutatingKeywords : list string :=
  ["DROP"; "DELETE"; "TRUNCATE"; "ALTER"; "CREATE"; "INSERT"; "UPDATE"].

Definition equalsIgnoreCase (a b : string) : bool :=
  String.eqb (toLowerCase a) (toLowerCase b).

(** The code unit a string ends with, [prev] when it is empty. *)
Fixpoint lastUnit (prev : option ascii) (s : string) : option ascii :=
  match s with
  | EmptyString => prev
  | String c s' => lastUnit (Some c) s'
  end.

(** A mutating keyword occurs in [sql], in any casing, starting where no
    word character precedes it and followed by a white space character. *)
Definition containsKeyword (sql : string) : Prop :=
  exists before word ws after kw,
    In kw mutatingKeywords /\
    equalsIgnoreCase word kw = true /\
    IsWordChar (lastUnit None before) = false /\
    isWhiteSpace ws = true /\
    sql = (before ++ word ++ String ws after)%string.

(** The text begins with [select] once leading white space is trimmed and
    case is ignored. *)
Definition beginsWithSelect (sql : string) : bool :=
  startsWith (toLowerCase (trimStart sql)) "select".

Definition allUnits : list ascii := map ascii_of_nat (seq 0 256).

Definition isUpperLetter (c : ascii) : bool := in_range 65 90 c.

Definition noWhiteSpace (p : string) : bool :=
  forallb (fun c => negb (isWhiteSpace c)) (list_ascii_of_string p).

Definition upperWord (k : string) : bool :=
  forallb isUpperLetter (list_ascii_of_string k).

(** Two code units that are equal, or the two cases of one of the letters
    A to Z. *)
Definition sameLetter (a b : ascii) : bool :=
  Ascii.eqb a b
  || (in_range 65 90 a && (code b =? code a + 32)%N)
  || (in_range 65 90 b && (code a =? code b + 32)%N).

(** Two texts that differ at most in the case of the letters A to Z. *)
Fixpoint sameUpToCase (s t : string) : bool :=
  match s, t with
  | EmptyString, EmptyString => true
  | String a s', String b t' => sameLetter a b && sameUpToCase s' t'
  | _, _ => false
  end.

(** ** Accounting for the pool *)

Section Accounting.
Context {PG : PgPool}.

Definition isQueryOf (client : PoolClient) (e : Event) : Prop :=
  exists sql params, e = EvQuery client sql params.

(** The pool traffic of one call: none at all, one refused connection, or
    one client acquired, queried and released last. *)
Inductive scoped : list Event -> Prop :=
| scoped_unused : scoped []
| scoped_refused : scoped [EvConnectFailed]
| scoped_used (client : PoolClient) (queries : list Event) :
    Forall (isQueryOf client) queries ->
    scoped (EvAcquire client :: queries ++ [EvRelease client]).

Fixpoint acquireCount (es : list Event) : nat :=
  match es with
  | [] => 0
  | EvAcquire _ :: es' => S (acquireCount es')
  | _ :: es' => acquireCount es'
  end.

Fixpoint releaseCount (es : list Event) : nat :=
  match es with
  | [] => 0
  | EvRelease _ :: es' => S (releaseCount es')
  | _ :: es' => releaseCount es'
  end.

(** A call fails with [InvalidParams] without having touched the pool. *)
Definition failsInvalidParams (r : Ran ToolResponse) (w : World) : Prop :=
  exists message,
    outcome r = Thrown (McpError InvalidParams message) /\
    world r = w /\ events r = [].

End Accounting.

(** ** The layout of the payload of [query_database]

    What [JSON.stringify(..., null, 2)] writes for an object with the members
    [rows], [rowCount] and [fields], and for one field of the result. *)

Definition queryText (rowsText rowCountText fieldsText : string) : string :=
  wrap "{" "}" "" "  "
    [ (QuoteJSONString "rows" ++ ": " ++ rowsText)%string;
      (QuoteJSONString "rowCount" ++ ": " ++ rowCountText)%string;
      (QuoteJSONString "fields" ++ ": " ++ fieldsText)%string ].

Definition numberText {RT : Runtime} (x : spec_float) : string :=
  if isFinite x then Number_toString x else "null".

Definition fieldText {RT : Runtime} (indent : string) (f : FieldDef) : string :=
  wrap "{" "}" indent (indent ++ gap)
    [ (QuoteJSONString "name" ++ ": " ++ QuoteJSONString (name f))%string;
      (QuoteJSONString "dataTypeID" ++ ": " ++ numberText (dataTypeID f))%string ].

Definition rowCountText {RT : Runtime} (result : QueryResult) : string :=
  match rowCount result with
  | Some n => numberText n
  | None => "null"
  end.

Definition fieldsText {RT : Runtime} (fs : list FieldDef) : string :=
  wrap "[" "]" "  " "    " (map (fieldText "    ") fs).


(** ** The arguments of [list_tables] *)

(** The schema a call asks for: the [schema] argument, ["public"] when it is left out. *)
Definition schemaArgument (props : list (string * value)) (schema : string) : Prop :=
  getProp props "schema" = VString schema \/
  (getProp props "schema" = VUndefined /\ schema = "public"%string).

(** [TableSchema] also declares an optional [table], which must be a string when given. *)
Definition tableArgumentOk (props : list (string * value)) : Prop :=
  getProp props "table" = VUndefined \/ exists t, getProp props "table" = VString t.


Definition tablesPayload (schema : string) (tables : list TableEntry) : value :=
  VObject [("schema", VString schema); ("tables", VArray (map tableRow tables))].

(** ** The tools the server advertises

    The answer of the [ListToolsRequestSchema] handler: each tool with its
    description and its input schema, a JSON Schema written as a value. *)

Record Tool : Type := mkTool {
  tool_name : string;
  tool_description : string;
  inputSchema : value
}.

Definition tools : list Tool :=
  [ mkTool "query_database" "Execute a SQL query against the PostgreSQL database"
      (VObject
         [ ("type", VString "object");
           ("properties",
             VObject
               [ ("sql",
                   VObject [ ("type", VString "string");
                             ("description", VString "The SQL query to execute") ]);
                 ("params",
                   VObject [ ("type", VString "array");
                             ("description",
                               VString "Optional parameters for the SQL query (for prepared statements)");
                             ("items", VObject [("type", VString "string")]);
                             ("default", VArray []) ]) ]);
           ("required", VArray [VString "sql"]) ]);
    mkTool "list_tables" "List all tables in the database or a specific schema"
      (VObject
         [ ("type", VString "object");
           ("properties",
             VObject
               [ ("schema",
                   VObject [ ("type", VString "string");
                             ("description", VString "Schema name to list tables from");
                             ("default", VString "public") ]) ]) ]);
    mkTool "describe_table" "Get the structure/schema of a specific table"
      (VObject
         [ ("type", VString "object");
           ("properties",
             VObject
               [ ("table",
                   VObject [ ("type", VString "string");
                             ("description", VString "Name of the table to describe") ]);
                 ("schema",
                   VObject [ ("type", VString "string");
                             ("description", VString "Schema name where the table is located");
                             ("default", VString "public") ]) ]);
           ("required", VArray [VString "table"]) ]);
    mkTool "get_table_data" "Get sample data from a table with optional limit"
      (VObject
         [ ("type", VString "object");
           ("properties",
             VObject
               [ ("table",
                   VObject [ ("type", VString "string");
                             ("description", VString "Name of the table to query") ]);
                 ("schema",
                   VObject [ ("type", VString "string");
                             ("description", VString "Schema name where the table is located");
                             ("default", VString "public") ]);
                 ("limit",
                   VObject [ ("type", VString "number");
                             ("description", VString "Maximum number of rows to return");
                             ("default", VNumber ten) ]) ]);
           ("required", VArray [VString "table"]) ]) ].

(** The properties an input schema gives a default for, with the default. *)
Definition advertisedDefaults (t : Tool) : list (string * value) :=
  match field (inputSchema t) "properties" with
  | VObject properties =>
      flat_map
        (fun kp =>
           match snd kp with
           | VObject property =>
               if hasProp property "default"
               then [(fst kp, getProp property "default")]
               else []
           | _ => []
           end) properties
  | _ => []
  end.

(** The property names an input schema lists under [required]. *)
Definition advertisedRequired (t : Tool) : list string :=
  map asString (asArray (field (inputSchema t) "required")).

(** The JSON Schema type an input schema gives to a property. *)
Definition advertisedType (t : Tool) (key : string) : option string :=
  match field (field (inputSchema t) "properties") key with
  | VObject property =>
      match getProp property "type" with
      | VString ty => Some ty
      | _ => None
      end
  | _ => None
  end.

(** The JSON Schema type of a value that is present. *)
Definition jsonType (v : value) : string :=
  match v with
  | VUndefined => "undefined"
  | VNull => "null"
  | VBool _ => "boolean"
  | VNumber _ => "number"
  | VString _ => "string"
  | VArray _ => "array"
  | VObject _ => "object"
  end.

(** The argument names the handler of a tool validates. *)
Definition argumentKeys (name : string) : list string :=
  if String.eqb name "query_database" then ["sql"; "params"]
  else if String.eqb name "list_tables" then ["schema"; "table"]
  else if String.eqb name "describe_table" then ["schema"; "table"]
  else if String.eqb name "get_table_data" then ["table"; "schema"; "limit"]
  else [].

(** ** The arguments of the table tools, when they validate *)

(** The [limit] a call asks for: a number above zero, 10 when it is left out. *)
Definition limitArgument (props : list (string * value)) (limit : spec_float) : Prop :=
  (getProp props "limit" = VNumber limit /\
   isNaN limit = false /\ SFleb limit (S754_zero false) = false) \/
  (getProp props "limit" = VUndefined /\ limit = ten).

(** The pool traffic of a handler that gets a client, runs [queries] on it
    and releases it. *)
Definition session {PG : PgPool} (client : PoolClient)
    (queries : list (string * list value)) : list Event :=
  EvAcquire client
    :: map (fun q => EvQuery client (fst q) (snd q)) queries
    ++ [EvRelease client].

(** ** [parseCSVLine] of [weather-data-setup/setup-weather-data.ts] *)

Definition quoteChar : ascii := ascii_of_N 34.
Definition commaChar : ascii := ascii_of_N 44.

(** The loop of [parseCSVLine] over the code units still to read, with its
    three variables. *)
Fixpoint parseCSVLoop (line : string) (result : list string) (current : string)
    (inQuotes : bool) : list string :=
  match line with
  | EmptyString => result ++ [trim current]
  | String char line' =>
      if Ascii.eqb char quoteChar
      then parseCSVLoop line' result current (negb inQuotes)
      else if Ascii.eqb char commaChar && negb inQuotes
           then parseCSVLoop line' (result ++ [trim current]) EmptyString inQuotes
           else parseCSVLoop line' result (current ++ String char EmptyString)%string inQuotes
  end.

Definition parseCSVLine (line : string) : list string :=
  parseCSVLoop line [] EmptyString false.

Definition hasUnit (c : ascii) (s : string) : bool :=
  existsb (Ascii.eqb c) (list_ascii_of_string s).

Definition countUnit (c : ascii) (s : string) : nat :=
  List.length (filter (Ascii.eqb c) (list_ascii_of_string s)).

(** A field as [parseCSVLine] returns it: trimmed and free of quotes. *)
Definition plainField (f : string) : Prop :=
  trim f = f /\ hasUnit quoteChar f = false.

Definition quoted (f : string) : string :=
  String quoteChar (f ++ String quoteChar EmptyString).

(** ** [WeatherService.getCityWeather] of [src/weather-service.ts] *)

Definition cityWeatherSql : string :=
  "SELECT " ++ newline ++
  "          city, country, temperature_celsius, temperature_fahrenheit," ++ newline ++
  "          weather_condition, weather_description, humidity_percent," ++ newline ++
  "          pressure_hpa, wind_speed_kmh, wind_direction_degrees," ++ newline ++
  "          visibility_km, uv_index, precipitation_mm, cloud_cover_percent," ++ newline ++
  "          feels_like_celsius, timestamp_utc" ++ newline ++
  "        FROM weather_data " ++ newline ++
  "        WHERE city ILIKE $1" ++ newline ++
  "        ORDER BY timestamp_utc DESC".

Section WeatherService.
Context {RT : Runtime} {PG : PgPool}.

(** [try { body } finally { finalizer }]: the finalizer runs whether the
    body returns or throws; what it throws, if it does, replaces the outcome. *)
Definition tryFinally {A : Type} (body : M A) (finalizer : M unit) : M A := fun w =>
  let r1 := body w in
  let r2 := finalizer (world r1) in
  mkRan
    (match outcome r2 with
     | Thrown e => Thrown e
     | Returned _ => outcome r1
     end)
    (world r2) (events r1 ++ events r2).

(** The client is acquired before the [try] block here: when [connect]
    rejects, the method throws and there is nothing to release.  Reading
    [result.rows.length] throws a [TypeError] when [result.rows] is undefined. *)
Definition getCityWeather (cityName : string) : M value :=
  bind connect (fun client =>
    tryFinally
      (bind (query client cityWeatherSql [VString cityName]) (fun result =>
         match resultRows result with
         | VArray [] =>
             ret (VObject [("error", VString ("No weather data found for " ++ cityName))])
         | VArray (row :: _) => ret row
         | _ => throw (Error (TypeError_message "length"))
         end))
      (release client)).

End WeatherService.

(** ** What a dispatch can end in *)

(** The uniform envelope: one content item of type [text] whose text is defined. *)
Definition textEnvelope (r : ToolResponse) : Prop :=
  exists txt, content r = [mkContent "text" (Some txt)].

Definition toolNames : list string := map tool_name tools.

Section Outcomes.
Context {PG : PgPool}.

(** A computation that throws nothing but driver errors. *)
Definition throwsErrorsOnly {A : Type} (m : M A) : Prop :=
  forall w e, outcome (m w) = Thrown e -> exists message, e = Error message.

(** A computation whose results all satisfy [P]. *)
Definition returnsOnly {A : Type} (P : A -> Prop) (m : M A) : Prop :=
  forall w a, outcome (m w) = Returned a -> P a.

(** How a handler ends: it fails with [InvalidParams] before the pool, or it
    has used the pool and either returns the text envelope or throws a
    driver error. *)
Definition handlerEnds (r : Ran ToolResponse) (w : World) : Prop :=
  failsInvalidParams r w \/
  (events r <> [] /\
   ((exists response, outcome r = Returned response /\ textEnvelope response) \/
    (exists message, outcome r = Thrown (Error message)))).

End Outcomes.

(** A pool that refuses every connection, as when the server is unreachable. *)
Definition refusingPool : PgPool := {|
  World := unit;
  PoolClient := unit;
  pool_connect := fun w => (inl "connect ECONNREFUSED 127.0.0.1:5432"%string, w);
  client_query := fun _ _ _ w => (inr (OneResult (mkResult [] None (Some []))), w);
  client_release := fun _ w => w
|}.

(** * Properties *)

(** ** Code units *)

Lemma allUnits_complete (P : ascii -> bool) :
  forallb P allUnits = true -> forall c, P c = true.
Proof.
  intros H c. rewrite forallb_forall in H. apply H.
  rewrite <- (ascii_nat_embedding c). unfold allUnits.
  apply in_map, in_seq. pose proof (nat_ascii_bounded c). lia.
Qed.

Lemma toLowerCase_unit_whitespace c :
  isWhiteSpace (toLowerCase_unit c) = isWhiteSpace c.
Proof.
  apply Bool.eqb_prop.
  apply (allUnits_complete
           (fun c => Bool.eqb (isWhiteSpace (toLowerCase_unit c)) (isWhiteSpace c))).
  vm_compute. reflexivity.
Qed.

(** Under the [i] flag an upper-case pattern letter matches exactly the code
    units with the same lower case. *)
Lemma Canonicalize_upper_letter k d :
  isUpperLetter k = true ->
  (Canonicalize d =? Canonicalize k)%N = Ascii.eqb (toLowerCase_unit d) (toLowerCase_unit k).
Proof.
  intros Hk.
  assert (H : (if isUpperLetter k
               then forallb (fun d => Bool.eqb (Canonicalize d =? Canonicalize k)%N
                                        (Ascii.eqb (toLowerCase_unit d) (toLowerCase_unit k)))
                            allUnits
               else true) = true).
  { apply (allUnits_complete
             (fun k => if isUpperLetter k
                       then forallb (fun d => Bool.eqb (Canonicalize d =? Canonicalize k)%N
                                                (Ascii.eqb (toLowerCase_unit d) (toLowerCase_unit k)))
                                    allUnits
                       else true)).
    vm_compute. reflexivity. }
  rewrite Hk in H.
  apply Bool.eqb_prop.
  exact (allUnits_complete _ H d).
Qed.

Lemma lower_of_upper_is_word k d :
  isUpperLetter k = true ->
  toLowerCase_unit d = toLowerCase_unit k ->
  isWordCharacter d = true.
Proof.
  intros Hk Hd.
  assert (H : (if isUpperLetter k
               then forallb (fun d => implb (Ascii.eqb (toLowerCase_unit d) (toLowerCase_unit k))
                                        (isWordCharacter d))
                            allUnits
               else true) = true).
  { apply (allUnits_complete
             (fun k => if isUpperLetter k
                       then forallb (fun d => implb (Ascii.eqb (toLowerCase_unit d) (toLowerCase_unit k))
                                                (isWordCharacter d))
                                    allUnits
                       else true)).
    vm_compute. reflexivity. }
  rewrite Hk in H.
  pose proof (allUnits_complete _ H d) as Hd'. cbv beta in Hd'.
  rewrite Hd, Ascii.eqb_refl in Hd'. exact Hd'.
Qed.

(** ** [trim] and [startsWith] *)

Lemma prefix_nil_r p : String.prefix p "" = match p with EmptyString => true | _ => false end.
Proof. destruct p; reflexivity. Qed.

Lemma prefix_cons a p c t :
  String.prefix (String a p) (String c t) = Ascii.eqb a c && String.prefix p t.
Proof.
  simpl. destruct (ascii_dec a c) as [->|n].
  - now rewrite Ascii.eqb_refl.
  - apply Ascii.eqb_neq in n. now rewrite n.
Qed.

(** A prefix test against a pattern free of white space does not see what
    [trimEnd] removes. *)
Lemma prefix_trimEnd p :
  forall t, noWhiteSpace p = true ->
    String.prefix p (toLowerCase (trimEnd t)) = String.prefix p (toLowerCase t).
Proof.
  intros t; revert p. induction t as [|c t IH]; intros p Hp; [reflexivity|].
  destruct p as [|a p]; [destruct (trimEnd (String c t)); reflexivity|].
  unfold noWhiteSpace in Hp. simpl in Hp. apply andb_prop in Hp as [Ha Hp].
  specialize (IH p Hp).
  change (toLowerCase (String c t)) with (String (toLowerCase_unit c) (toLowerCase t)).
  rewrite prefix_cons. simpl trimEnd.
  destruct (trimEnd t) as [|u us] eqn:E.
  - destruct (isWhiteSpace c) eqn:Hc.
    + simpl toLowerCase. rewrite prefix_nil_r.
      destruct (Ascii.eqb a (toLowerCase_unit c)) eqn:Hac; [|reflexivity].
      apply Ascii.eqb_eq in Hac. subst a.
      rewrite toLowerCase_unit_whitespace, Hc in Ha. discriminate.
    + change (toLowerCase (String c "")) with (String (toLowerCase_unit c) (toLowerCase "")).
      rewrite prefix_cons, IH. reflexivity.
  - change (toLowerCase (String c (String u us)))
      with (String (toLowerCase_unit c) (toLowerCase (String u us))).
    rewrite prefix_cons, IH. reflexivity.
Qed.

(** The test of the code, which trims both ends, is the test on the text
    with its leading white space trimmed. *)
Lemma startsWith_select_trim sql :
  startsWith (toLowerCase (trim sql)) "select" = beginsWithSelect sql.
Proof.
  unfold beginsWithSelect, startsWith, trim. apply prefix_trimEnd. reflexivity.
Qed.

(** ** The matcher on the guard's pattern *)

Lemma flat_map_nonempty {A B : Type} (f : A -> list B) (l : list A) :
  flat_map f l <> [] <-> exists y, In y l /\ f y <> [].
Proof.
  induction l as [|a l IH]; simpl.
  - split; [congruence | intros (y & [] & _)].
  - split.
    + intros H. destruct (f a) eqn:E.
      * apply IH in H as (y & Hy & Hf). exists y. auto.
      * exists a. split; [now left | congruence].
    + intros (y & [->|Hy] & Hf) H; apply app_eq_nil in H as [H1 H2].
      * contradiction.
      * apply IH in H2; [exact H2 | eauto].
Qed.

Lemma matcher_Char c prev d s :
  matcher (Char c) (prev, String d s)
  = if (Canonicalize d =? Canonicalize c)%N then [(Some d, s)] else [].
Proof. reflexivity. Qed.

Lemma matcher_Seq r1 r2 x : matcher (Seq r1 r2) x = flat_map (matcher r2) (matcher r1 x).
Proof. reflexivity. Qed.

Lemma matcher_Alt r1 r2 x : matcher (Alt r1 r2) x = matcher r1 x ++ matcher r2 x.
Proof. reflexivity. Qed.

(** A literal of upper-case letters matches exactly the words with the same
    lower case, and leaves the rest of the input. *)
Lemma matcher_literal k :
  upperWord k = true ->
  forall prev s y,
    In y (matcher (literal k) (prev, s)) <->
    exists word, toLowerCase word = toLowerCase k /\
                 s = (word ++ rest y)%string /\ fst y = lastUnit prev word.
Proof.
  induction k as [|c k IH]; intros Hk prev s y.
  - simpl. split.
    + intros [<-|[]]. exists ""%string. auto.
    + intros (word & Hw & Hs & Hp). destruct word; [|discriminate].
      left. destruct y as [p r]. simpl in *. now subst.
  - unfold upperWord in Hk. simpl in Hk. apply andb_prop in Hk as [Hc Hk].
    change (literal (String c k)) with (Seq (Char c) (literal k)).
    rewrite matcher_Seq. specialize (IH Hk). split.
    + intros H. apply in_flat_map in H as (z & Hz & Hy).
      destruct s as [|d s]; [destruct Hz|].
      rewrite matcher_Char, (Canonicalize_upper_letter c d Hc) in Hz.
      destruct (Ascii.eqb (toLowerCase_unit d) (toLowerCase_unit c)) eqn:E; [|destruct Hz].
      destruct Hz as [<-|[]]. apply Ascii.eqb_eq in E.
      apply IH in Hy as (word & Hw & Hs & Hp).
      exists (String d word). simpl. rewrite E, Hw, <- Hs. auto.
    + intros (word & Hw & Hs & Hp). destruct word as [|d word]; [discriminate|].
      simpl in Hw. injection Hw as Hd Hw. simpl in Hs. subst s.
      apply in_flat_map. exists (Some d, (word ++ rest y)%string). split.
      * rewrite matcher_Char, (Canonicalize_upper_letter c d Hc), Hd, Ascii.eqb_refl.
        now left.
      * apply IH. exists word. auto.
Qed.

Lemma RepeatMatcher_reached m fuel x : In x (RepeatMatcher m fuel true x).
Proof. destruct fuel; simpl; [now left | apply in_or_app; right; now left]. Qed.

Lemma RepeatMatcher_first m fuel x :
  RepeatMatcher m (S fuel) false x = flat_map (RepeatMatcher m fuel true) (m x).
Proof. cbn [RepeatMatcher andb]. now rewrite app_nil_r. Qed.

(** [\s+] succeeds exactly where a white space character comes next. *)
Lemma matcher_plus_whitespace x :
  matcher (Plus ClassWhiteSpace) x <> [] <->
  exists ws after, rest x = String ws after /\ isWhiteSpace ws = true.
Proof.
  change (matcher (Plus ClassWhiteSpace) x)
    with (RepeatMatcher (matcher ClassWhiteSpace) (S (String.length (rest x))) false x).
  rewrite RepeatMatcher_first, flat_map_nonempty. split.
  - intros (y & Hy & _). destruct x as [prev [|d s]]; [destruct Hy|].
    cbn [matcher rest snd] in Hy.
    destruct (isWhiteSpace d) eqn:E; [|destruct Hy]. exists d, s. auto.
  - intros (ws & after & Hr & Hws). exists (Some ws, after). split.
    + destruct x as [prev s]. cbn [rest snd] in Hr. subst s.
      cbn [matcher rest snd]. rewrite Hws. now left.
    + intros H.
      pose proof (RepeatMatcher_reached (matcher ClassWhiteSpace)
                    (String.length (rest x)) (Some ws, after)) as Hin.
      rewrite H in Hin. destruct Hin.
Qed.

(** The search finds a match exactly when the pattern matches at some
    position of the input. *)
Lemma search_spec r :
  forall s prev,
    search r prev s = true <->
    exists before s', s = (before ++ s')%string /\
                      matcher r (lastUnit prev before, s') <> [].
Proof.
  induction s as [|c s IH]; intros prev; simpl.
  - destruct (matcher r (prev, ""%string)) eqn:E; split; try congruence.
    + intros (before & s' & Hs & Hm). destruct before; [|discriminate].
      simpl in Hs. subst s'. simpl in Hm. congruence.
    + intros _. exists ""%string, ""%string. simpl. rewrite E. split; congruence.
  - destruct (matcher r (prev, String c s)) eqn:E.
    + rewrite IH. split.
      * intros (before & s' & -> & Hm). exists (String c before), s'. auto.
      * intros (before & s' & Hs & Hm). destruct before as [|d before].
        -- simpl in *. subst s'. congruence.
        -- simpl in Hs. injection Hs as -> ->. exists before, s'. auto.
    + split; [|reflexivity]. intros _. exists ""%string, (String c s). simpl.
      rewrite E. split; congruence.
Qed.

Lemma mutatingKeywords_upper kw : In kw mutatingKeywords -> upperWord kw = true.
Proof.
  intros H. assert (Hall : forallb upperWord mutatingKeywords = true) by reflexivity.
  rewrite forallb_forall in Hall. auto.
Qed.

(** The alternation of the pattern matches as one of the keywords does. *)
Lemma matcher_keywords x y :
  In y (matcher (Alt (literal "DROP")
                (Alt (literal "DELETE")
                (Alt (literal "TRUNCATE")
                (Alt (literal "ALTER")
                (Alt (literal "CREATE")
                (Alt (literal "INSERT")
                     (literal "UPDATE"))))))) x) <->
  exists kw, In kw mutatingKeywords /\ In y (matcher (literal kw) x).
Proof.
  rewrite !matcher_Alt, !in_app_iff. unfold mutatingKeywords. split.
  - intros H. repeat (destruct H as [H|H]; [eexists; split; [|exact H]; simpl; tauto|]).
    eexists; split; [|exact H]; simpl; tauto.
  - intros (kw & Hkw & H). simpl in Hkw.
    repeat (destruct Hkw as [<-|Hkw]; [tauto|]). destruct Hkw.
Qed.

(** The pattern test of the code is the occurrence the description speaks of. *)
Lemma isDangerous_spec sql : isDangerous sql = true <-> containsKeyword sql.
Proof.
  unfold isDangerous, dangerousPatterns, existsb, test.
  rewrite orb_false_r, search_spec. unfold containsKeyword. split.
  - intros (before & s' & -> & Hm). simpl lastUnit in Hm.
    rewrite matcher_Seq in Hm. apply flat_map_nonempty in Hm as (x & Hx & Hm).
    simpl in Hx. destruct (xorb _ _) eqn:Hb in Hx; [|destruct Hx].
    destruct Hx as [<-|[]].
    rewrite matcher_Seq in Hm. apply flat_map_nonempty in Hm as (y & Hy & Hm).
    apply matcher_keywords in Hy as (kw & Hkw & Hy).
    pose proof (mutatingKeywords_upper kw Hkw) as Hup.
    apply (matcher_literal kw Hup) in Hy as (word & Hw & Hs & Hp).
    apply matcher_plus_whitespace in Hm as (ws & after & Hr & Hws).
    exists before, word, ws, after, kw. rewrite Hr in Hs. repeat split; auto.
    + unfold equalsIgnoreCase. rewrite Hw. apply String.eqb_refl.
    + unfold current, rest in Hb. simpl in Hb. rewrite Hs in Hb.
      destruct word as [|d word].
      * destruct kw; [simpl in Hkw; repeat (destruct Hkw as [Hkw|Hkw]; try discriminate);
                      destruct Hkw | discriminate].
      * destruct kw as [|k kw]; [discriminate|]. simpl in Hw. injection Hw as Hd _.
        unfold upperWord in Hup. simpl in Hup. apply andb_prop in Hup as [Hk _].
        simpl in Hb. rewrite (lower_of_upper_is_word k d Hk Hd) in Hb.
        destruct (IsWordChar (lastUnit None before)); [discriminate | reflexivity].
    + now rewrite Hs.
  - intros (before & word & ws & after & kw & Hkw & Hw & Hb & Hws & ->).
    exists before, (word ++ String ws after)%string. split; [reflexivity|].
    pose proof (mutatingKeywords_upper kw Hkw) as Hup.
    apply String.eqb_eq in Hw.
    rewrite matcher_Seq. apply flat_map_nonempty.
    exists (lastUnit None before, (word ++ String ws after)%string). split.
    + simpl. rewrite Hb. unfold current, rest. simpl.
      destruct word as [|d word].
      * destruct kw; [simpl in Hkw; repeat (destruct Hkw as [Hkw|Hkw]; try discriminate);
                      destruct Hkw | discriminate].
      * destruct kw as [|k kw]; [discriminate|]. simpl in Hw. injection Hw as Hd _.
        unfold upperWord in Hup. simpl in Hup. apply andb_prop in Hup as [Hk _].
        simpl. rewrite (lower_of_upper_is_word k d Hk Hd). now left.
    + rewrite matcher_Seq. apply flat_map_nonempty.
      exists (lastUnit (lastUnit None before) word, String ws after). split.
      * apply matcher_keywords. exists kw. split; [assumption|].
        apply (matcher_literal kw Hup). exists word. auto.
      * apply matcher_plus_whitespace. exists ws, after. auto.
Qed.

(** *** The fuel of [RepeatMatcher] is enough

    A matcher never moves backwards, so an iteration that is kept consumes
    input, and the result of a repetition does not change once the fuel
    exceeds the length of the remaining input. *)

Lemma flat_map_all_nil {A B : Type} (f : A -> list B) (l : list A) :
  (forall y, In y l -> f y = []) -> flat_map f l = [].
Proof.
  induction l as [|a l IH]; intros H; [reflexivity|]. simpl.
  rewrite (H a (or_introl eq_refl)), IH; [reflexivity|].
  intros y Hy. apply H. now right.
Qed.

Lemma flat_map_ext_on {A B : Type} (f g : A -> list B) (l : list A) :
  (forall y, In y l -> f y = g y) -> flat_map f l = flat_map g l.
Proof.
  induction l as [|a l IH]; intros H; [reflexivity|]. simpl.
  rewrite (H a (or_introl eq_refl)), IH; [reflexivity|].
  intros y Hy. apply H. now right.
Qed.

Lemma RepeatMatcher_fuel m :
  (forall x y, In y (m x) -> String.length (rest y) <= String.length (rest x)) ->
  forall n1 n2 x,
    String.length (rest x) <= n1 -> String.length (rest x) <= n2 ->
    RepeatMatcher m n1 true x = RepeatMatcher m n2 true x.
Proof.
  intros Hm.
  assert (Hstuck : forall n x, String.length (rest x) = 0 ->
                     RepeatMatcher m n true x = [x]).
  { intros [|n] x Hx; [reflexivity|]. cbn [RepeatMatcher andb].
    rewrite flat_map_all_nil; [reflexivity|].
    intros y Hy. apply Hm in Hy.
    replace (String.length (rest y) =? String.length (rest x))%nat with true;
      [reflexivity|]. symmetry. apply Nat.eqb_eq. lia. }
  induction n1 as [|n1 IH]; intros n2 x H1 H2.
  - rewrite (Hstuck n2 x); [reflexivity | lia].
  - destruct n2 as [|n2]; [rewrite (Hstuck (S n1) x); [reflexivity | lia]|].
    cbn [RepeatMatcher andb]. f_equal.
    apply flat_map_ext_on. intros y Hy. apply Hm in Hy.
    destruct (String.length (rest y) =? String.length (rest x))%nat eqn:E; [reflexivity|].
    apply Nat.eqb_neq in E. apply IH; lia.
Qed.

Lemma RepeatMatcher_suffix m :
  (forall x y, In y (m x) -> String.length (rest y) <= String.length (rest x)) ->
  forall fuel min0 x y,
    In y (RepeatMatcher m fuel min0 x) ->
    String.length (rest y) <= String.length (rest x).
Proof.
  intros Hm. induction fuel as [|fuel IH]; intros min0 x y; simpl.
  - destruct min0; [intros [<-|[]]; lia | intros []].
  - rewrite in_app_iff, in_flat_map. intros [(z & Hz & Hy)|Hy].
    + apply Hm in Hz. destruct (min0 && _); [destruct Hy|].
      apply IH in Hy. lia.
    + destruct min0; [destruct Hy as [<-|[]]; lia | destruct Hy].
Qed.

Lemma matcher_suffix r :
  forall x y, In y (matcher r x) -> String.length (rest y) <= String.length (rest x).
Proof.
  induction r as [| c | | | r1 IH1 r2 IH2 | r1 IH1 r2 IH2 | r IH]; intros [prev s] y; simpl.
  - intros [<-|[]]. simpl. lia.
  - destruct s as [|d s]; [intros []|].
    destruct (_ =? _)%N; [intros [<-|[]]; simpl; lia | intros []].
  - destruct s as [|d s]; [intros []|].
    destruct (isWhiteSpace d); [intros [<-|[]]; simpl; lia | intros []].
  - destruct (xorb _ _); [intros [<-|[]]; simpl; lia | intros []].
  - rewrite in_flat_map. intros (z & Hz & Hy). apply IH1 in Hz. apply IH2 in Hy.
    simpl in *. lia.
  - rewrite in_app_iff. intros [H|H]; [apply IH1 in H | apply IH2 in H]; exact H.
  - intros H.
    apply (RepeatMatcher_suffix (matcher r) IH
             (S (String.length s)) false (prev, s) y). exact H.
Qed.

(** More fuel than [matcher] gives to [r+] changes nothing. *)
Lemma Plus_fuel_enough r x fuel :
  String.length (rest x) <= fuel ->
  RepeatMatcher (matcher r) (S fuel) false x = matcher (Plus r) x.
Proof.
  intros H.
  change (matcher (Plus r) x)
    with (RepeatMatcher (matcher r) (S (String.length (rest x))) false x).
  rewrite !RepeatMatcher_first. apply flat_map_ext_on. intros y Hy.
  apply matcher_suffix in Hy.
  apply (RepeatMatcher_fuel (matcher r) (matcher_suffix r)); lia.
Qed.

(** ** Validation *)

Lemma mergeObject_invalid input rs k i issues :
  In (k, inr (i :: issues)) rs -> exists all, mergeObject input rs = inr all.
Proof.
  intros Hin. unfold mergeObject.
  destruct (flat_map (fun kr => issuesOf (snd kr)) rs) eqn:E.
  - exfalso. assert (H : In i (flat_map (fun kr => issuesOf (snd kr)) rs)).
    { apply in_flat_map. eexists. split; [exact Hin | now left]. }
    rewrite E in H. destruct H.
  - eauto.
Qed.

Lemma mergeObject_valid input rs data :
  mergeObject input rs = inl data ->
  data = VObject (flat_map (member input) rs) /\
  forall k issues, In (k, inr issues) rs -> issues = [].
Proof.
  unfold mergeObject.
  destruct (flat_map (fun kr => issuesOf (snd kr)) rs) eqn:E; [|discriminate].
  intros H. injection H as <-. split; [reflexivity|].
  intros k [|i issues] Hin; [reflexivity|].
  assert (H : In i (flat_map (fun kr => issuesOf (snd kr)) rs)).
  { apply in_flat_map. eexists. split; [exact Hin | now left]. }
  rewrite E in H. destruct H.
Qed.

Lemma getProp_app_other ps qs k :
  (forall v, ~ In (k, v) ps) -> getProp (ps ++ qs) k = getProp qs k.
Proof.
  induction ps as [|[k' v'] ps IH]; intros H; [reflexivity|]. simpl.
  destruct (String.eqb k' k) eqn:E.
  - apply String.eqb_eq in E. subst k'. exfalso. apply (H v'). now left.
  - apply IH. intros v Hv. apply (H v). now right.
Qed.

Lemma member_keys input kr k v : In (k, v) (member input kr) -> k = fst kr.
Proof.
  unfold member. destruct (snd kr) as [[]|]; try destruct (hasProp _ _); simpl;
    intuition congruence.
Qed.

Lemma getProp_absent input rs k :
  ~ In k (map fst rs) -> getProp (flat_map (member input) rs) k = VUndefined.
Proof.
  induction rs as [|kr rs IH]; intros H; [reflexivity|]. simpl.
  rewrite getProp_app_other.
  - apply IH. intros Hin. apply H. now right.
  - intros v Hv. apply member_keys in Hv. apply H. left. now symmetry.
Qed.

(** A validated record holds, under each key of the shape, the value its
    field parsed to. *)
Lemma getProp_members input rs k v :
  NoDup (map fst rs) -> In (k, inl v) rs ->
  getProp (flat_map (member input) rs) k = v.
Proof.
  induction rs as [|[k0 r0] rs IH]; intros Hnd Hin; [destruct Hin|].
  simpl in Hnd. inversion Hnd as [|? ? Hnot Hnd']; subst. simpl.
  destruct Hin as [Heq|Hin].
  - injection Heq as -> ->. unfold member at 1. cbn [fst snd].
    assert (Hself : forall x, getProp ([(k, x)] ++ flat_map (member input) rs) k = x).
    { intros x. simpl. now rewrite String.eqb_refl. }
    destruct v; try apply Hself.
    destruct (hasProp input k); [apply Hself|].
    simpl. now apply getProp_absent.
  - rewrite getProp_app_other; [now apply IH|].
    intros x Hx. apply member_keys in Hx. simpl in Hx. subst k0. apply Hnot.
    apply (in_map fst) in Hin. exact Hin.
Qed.

Lemma safeParse_QuerySchema props :
  safeParse QuerySchema (VObject props)
  = mergeObject props
      [ ("sql"%string,
          parseAt (ZodString (Some (1%nat, "SQL query cannot be empty"%string)))
            [Key "sql"] (getProp props "sql"));
        ("params"%string,
          parseAt (ZodDefault (ZodOptional (ZodArray ZodAny)) (VArray []))
            [Key "params"] (getProp props "params")) ].
Proof. reflexivity. Qed.

Lemma parseAt_string t min path v w :
  t = ZodString min -> parseAt t path v = inl w -> exists s, v = VString s /\ w = v.
Proof.
  intros -> H. destruct v; try discriminate H. simpl in H.
  destruct min as [[n message]|].
  - destruct (String.length s <? n)%nat; [discriminate H|]. injection H as <-. eauto.
  - injection H as <-. eauto.
Qed.

Lemma parseAt_string_min n message path s :
  parseAt (ZodString (Some (n, message))) path (VString s)
  = if (String.length s <? n)%nat
    then inr [mkIssue too_small path (Some message)]
    else inl (VString s).
Proof. reflexivity. Qed.

Lemma result_cases (r : ParseReturn) : (exists v, r = inl v) \/ (exists issues, r = inr issues).
Proof. destruct r; eauto. Qed.

(** Validated arguments of [query_database] carry the [sql] text they were
    given, and it is not empty. *)
Lemma QuerySchema_valid args data :
  safeParse QuerySchema args = inl data ->
  exists sql, field args "sql" = VString sql /\ sql <> ""%string /\
              field data "sql" = VString sql.
Proof.
  destruct args as [| | | | |elems|props]; try (intros H; discriminate H).
  rewrite safeParse_QuerySchema. intros H.
  apply mergeObject_valid in H as [-> Hall].
  destruct (result_cases
              (parseAt (ZodString (Some (1%nat, "SQL query cannot be empty"%string)))
                 [Key "sql"] (getProp props "sql"))) as [[v Hv]|[issues Hi]].
  - destruct (parseAt_string _ _ _ _ _ eq_refl Hv) as (sql & Hs & ->).
    exists sql. cbn [field]. split; [exact Hs|]. split.
    + intros ->. rewrite Hs in Hv. discriminate Hv.
    + rewrite <- Hs. apply getProp_members.
      * repeat constructor; simpl; intuition discriminate.
      * left. now rewrite Hv.
  - assert (issues = []) as ->.
    { apply (Hall "sql"%string). left. now rewrite Hi. }
    destruct (getProp props "sql"); try discriminate Hi.
    rewrite parseAt_string_min in Hi. destruct (_ <? _)%nat; discriminate Hi.
Qed.

(** ** The handlers *)

Section ServerFacts.
Context {RT : Runtime} {PG : PgPool}.

Lemma catch_rethrow {A : Type} (m : M A) (name : string) (w : World) :
  world (catch m (rethrow name) w) = world (m w) /\
  events (catch m (rethrow name) w) = events (m w) /\
  outcome (catch m (rethrow name) w)
  = match outcome (m w) with
    | Returned a => Returned a
    | Thrown (McpError code message) => Thrown (McpError code message)
    | Thrown (Error message) =>
        Thrown (McpError InternalError
                  ("Failed to execute " ++ name ++ ": " ++ message))
    end.
Proof.
  unfold catch. destruct (outcome (m w)) as [a|[code message|message]] eqn:E; simpl;
    rewrite ?app_nil_r, ?E; auto.
Qed.

Lemma callTool_failsInvalidParams (m : M ToolResponse) (name : string) (w : World) :
  failsInvalidParams (m w) w -> failsInvalidParams (catch m (rethrow name) w) w.
Proof.
  intros (message & Ho & Hw & He).
  destruct (catch_rethrow m name w) as (Hw' & He' & Ho').
  exists message. rewrite Ho', Ho, Hw', He'. auto.
Qed.

Lemma callTool_query_database args w :
  callTool "query_database" args w = catch (executeQuery args) (rethrow "query_database") w.
Proof. reflexivity. Qed.

Lemma callTool_list_tables args w :
  callTool "list_tables" args w = catch (listTables args) (rethrow "list_tables") w.
Proof. reflexivity. Qed.

Lemma callTool_describe_table args w :
  callTool "describe_table" args w = catch (describeTable args) (rethrow "describe_table") w.
Proof. reflexivity. Qed.

Lemma callTool_get_table_data args w :
  callTool "get_table_data" args w = catch (getTableData args) (rethrow "get_table_data") w.
Proof. reflexivity. Qed.

Lemma invalidParameters_fails issues w :
  failsInvalidParams (invalidParameters issues w) w.
Proof. unfold failsInvalidParams, invalidParameters, throw. simpl. eauto. Qed.

(** What [executeQuery] does with arguments that validate. *)
Lemma executeQuery_valid args data sql w :
  safeParse QuerySchema args = inl data ->
  field args "sql" = VString sql ->
  executeQuery args w
  = if guardRejects sql
    then mkRan (Thrown (McpError InvalidParams guardMessage)) w []
    else runQuery sql (asArray (field data "params")) w.
Proof.
  intros Hp Hs. unfold executeQuery. rewrite Hp.
  destruct (QuerySchema_valid _ _ Hp) as (sql' & Hs' & _ & Hd).
  rewrite Hs in Hs'. injection Hs' as <-. rewrite Hd.
  change (asString (VString sql)) with sql.
  destruct (guardRejects sql); reflexivity.
Qed.

Lemma withClient_uses_pool {A : Type} (body : PoolClient -> M A) w :
  events (withClient body w) <> [].
Proof.
  unfold withClient, connect. destruct (pool_connect w) as [[message|client] w']; simpl;
    discriminate.
Qed.

Lemma guardRejects_spec sql :
  guardRejects sql = true <-> containsKeyword sql /\ beginsWithSelect sql = false.
Proof.
  unfold guardRejects. rewrite andb_true_iff, negb_true_iff, startsWith_select_trim.
  now rewrite isDangerous_spec.
Qed.

(** C1.  A statement in which one of the keywords DROP, DELETE, TRUNCATE,
    ALTER, CREATE, INSERT, UPDATE occurs in any casing as a word followed by
    white space, and which does not begin with [select] once leading white
    space is trimmed and case ignored, is rejected by the guard: with
    arguments that validate, [executeQuery] throws [InvalidParams] with the
    message "Only SELECT queries are allowed for security reasons", before
    the pool is touched. *)
Theorem mutating_statement_rejected (sql : string) :
  containsKeyword sql ->
  beginsWithSelect sql = false ->
  guardRejects sql = true /\
  forall args data w,
    safeParse QuerySchema args = inl data ->
    field args "sql" = VString sql ->
    executeQuery args w
    = mkRan (Thrown (McpError InvalidParams
                       "Only SELECT queries are allowed for security reasons")) w [].
Proof.
  intros Hk Hs.
  assert (Hg : guardRejects sql = true) by (apply guardRejects_spec; auto).
  split; [exact Hg|].
  intros args data w Hp Hf.
  rewrite (executeQuery_valid args data sql w Hp Hf), Hg. reflexivity.
Qed.

(** C2.  A statement that begins with [select], once leading white space is
    trimmed and case ignored, passes the guard whatever keywords it
    contains: with arguments that validate, [executeQuery] goes on to run
    the query on the pool. *)
Theorem select_statement_allowed (sql : string) :
  beginsWithSelect sql = true ->
  guardRejects sql = false /\
  forall args data w,
    safeParse QuerySchema args = inl data ->
    field args "sql" = VString sql ->
    executeQuery args w = runQuery sql (asArray (field data "params")) w /\
    events (executeQuery args w) <> [].
Proof.
  intros Hs.
  assert (Hg : guardRejects sql = false).
  { unfold guardRejects. rewrite startsWith_select_trim, Hs. apply andb_false_r. }
  split; [exact Hg|].
  intros args data w Hp Hf.
  rewrite (executeQuery_valid args data sql w Hp Hf), Hg.
  split; [reflexivity | apply withClient_uses_pool].
Qed.

(** A rejected statement stops [executeQuery] whether or not the other
    arguments validate. *)
Lemma executeQuery_rejected args sql w :
  field args "sql" = VString sql ->
  guardRejects sql = true ->
  failsInvalidParams (executeQuery args w) w.
Proof.
  intros Hf Hg. destruct (safeParse QuerySchema args) as [data|issues] eqn:Hp.
  - rewrite (executeQuery_valid args data sql w Hp Hf), Hg.
    exists guardMessage. auto.
  - unfold executeQuery. rewrite Hp. apply invalidParameters_fails.
Qed.

(** C3.  When [query_database] is called with a statement the guard rejects,
    the call fails with [InvalidParams] and the pool is never used: no
    connection is requested or acquired and no query is executed. *)
Theorem rejected_statement_never_reaches_pool (args : value) (sql : string) (w : World) :
  field args "sql" = VString sql ->
  guardRejects sql = true ->
  failsInvalidParams (executeQuery args w) w /\
  failsInvalidParams (callTool "query_database" args w) w.
Proof.
  intros Hf Hg. pose proof (executeQuery_rejected args sql w Hf Hg) as H.
  split; [exact H|].
  rewrite callTool_query_database. now apply callTool_failsInvalidParams.
Qed.

Lemma executeQuery_empty args w :
  field args "sql" = VString "" -> failsInvalidParams (executeQuery args w) w.
Proof.
  intros Hf. destruct (safeParse QuerySchema args) as [data|issues] eqn:Hp.
  - destruct (QuerySchema_valid _ _ Hp) as (sql & Hs & Hne & _).
    rewrite Hf in Hs. injection Hs as <-. contradiction.
  - unfold executeQuery. rewrite Hp. apply invalidParameters_fails.
Qed.

(** C9.  [query_database] with [sql] equal to the empty string fails with
    [InvalidParams] before any connection is requested from the pool. *)
Theorem empty_sql_rejected (args : value) (w : World) :
  field args "sql" = VString "" ->
  failsInvalidParams (executeQuery args w) w /\
  failsInvalidParams (callTool "query_database" args w) w.
Proof.
  intros Hf. pose proof (executeQuery_empty args w Hf) as H.
  split; [exact H|].
  rewrite callTool_query_database. now apply callTool_failsInvalidParams.
Qed.
(** ** Every acquired connection is released *)

Lemma queries_ret {A : Type} client (a : A) w :
  Forall (isQueryOf client) (events (ret a w)).
Proof. constructor. Qed.

Lemma queries_query client sql params w :
  Forall (isQueryOf client) (events (query client sql params w)).
Proof.
  unfold query. destruct (client_query client sql params w) as [[message|result] w'];
    simpl; constructor; try constructor; unfold isQueryOf; eauto.
Qed.

Lemma queries_bind {A B : Type} client (m : M A) (k : A -> M B) w :
  Forall (isQueryOf client) (events (m w)) ->
  (forall a w', Forall (isQueryOf client) (events (k a w'))) ->
  Forall (isQueryOf client) (events (bind m k w)).
Proof.
  intros Hm Hk. unfold bind. destruct (outcome (m w)); simpl; [|exact Hm].
  apply Forall_app. auto.
Qed.

(** Whatever the body does with the client, and whether it returns or
    throws, the client acquired by [withClient] is released after it. *)
Lemma withClient_scoped {A : Type} (body : PoolClient -> M A) w :
  (forall client w', Forall (isQueryOf client) (events (body client w'))) ->
  scoped (events (withClient body w)).
Proof.
  intros Hbody. unfold withClient, connect.
  destruct (pool_connect w) as [[message|client] w']; simpl.
  - constructor.
  - apply scoped_used. apply Hbody.
Qed.

Lemma scoped_balanced es :
  scoped es -> acquireCount es = releaseCount es /\ acquireCount es <= 1.
Proof.
  intros [| |client queries Hq]; simpl; auto.
  assert (H : acquireCount (queries ++ [EvRelease client]) = 0 /\
              releaseCount (queries ++ [EvRelease client]) = 1).
  { induction Hq as [|e queries (sql & params & ->) _ IH]; simpl; auto. }
  destruct H as [-> ->]. auto.
Qed.

Create HintDb pool discriminated.
#[local] Hint Resolve queries_ret queries_query queries_bind withClient_scoped : pool.
#[local] Hint Constructors scoped : pool.

Lemma executeQuery_scoped args w : scoped (events (executeQuery args w)).
Proof.
  unfold executeQuery, runQuery. destruct (safeParse QuerySchema args); [|constructor].
  destruct (guardRejects _); auto with pool.
Qed.

Lemma listTables_scoped args w : scoped (events (listTables args w)).
Proof.
  unfold listTables. destruct (safeParse TableSchema args); auto with pool.
Qed.

Lemma describeTable_scoped args w : scoped (events (describeTable args w)).
Proof.
  unfold describeTable. destruct (safeParse _ args); auto 6 with pool.
Qed.

Lemma getTableData_scoped args w : scoped (events (getTableData args w)).
Proof.
  unfold getTableData. destruct (safeParse TableDataSchema args); auto with pool.
Qed.

(** C4.  Whatever the tool, its arguments, and the behaviour of the pool
    and of the database (a refused connection and a query that raises
    included), the pool traffic of one dispatch is empty, or a single refused
    connection, or one client acquired, used for queries only, and released
    last: the acquisitions equal the releases, and there is at most one. *)
Theorem connection_released_exactly_once (name : string) (args : value) (w : World) :
  scoped (events (callTool name args w)) /\
  acquireCount (events (callTool name args w))
  = releaseCount (events (callTool name args w)) /\
  acquireCount (events (callTool name args w)) <= 1.
Proof.
  assert (H : scoped (events (callTool name args w))).
  { unfold callTool.
    destruct (catch_rethrow
                (if String.eqb name "query_database" then executeQuery args
                 else if String.eqb name "list_tables" then listTables args
                 else if String.eqb name "describe_table" then describeTable args
                 else if String.eqb name "get_table_data" then getTableData args
                 else throw (McpError MethodNotFound ("Unknown tool: " ++ name)))
                name w) as (_ & -> & _).
    destruct (String.eqb name "query_database"); [apply executeQuery_scoped|].
    destruct (String.eqb name "list_tables"); [apply listTables_scoped|].
    destruct (String.eqb name "describe_table"); [apply describeTable_scoped|].
    destruct (String.eqb name "get_table_data"); [apply getTableData_scoped|].
    constructor. }
  split; [exact H | now apply scoped_balanced].
Qed.

(** ** Argument checks of [describe_table] and [get_table_data] *)

Lemma safeParse_describe props :
  safeParse (required ["table"] TableSchema) (VObject props)
  = mergeObject props
      [ ("schema"%string,
          parseAt (ZodDefault (ZodOptional (ZodString None)) (VString "public"))
            [Key "schema"] (getProp props "schema"));
        ("table"%string, parseAt (ZodString None) [Key "table"] (getProp props "table")) ].
Proof. reflexivity. Qed.

Lemma safeParse_tableData props :
  safeParse TableDataSchema (VObject props)
  = mergeObject props
      [ ("table"%string,
          parseAt (ZodString (Some (1%nat, "Table name cannot be empty"%string)))
            [Key "table"] (getProp props "table"));
        ("schema"%string,
          parseAt (ZodDefault (ZodOptional (ZodString None)) (VString "public"))
            [Key "schema"] (getProp props "schema"));
        ("limit"%string,
          parseAt (ZodDefault (ZodOptional (ZodNumber true)) (VNumber ten))
            [Key "limit"] (getProp props "limit")) ].
Proof. reflexivity. Qed.

Lemma describeTable_missing args w :
  field args "table" = VUndefined -> failsInvalidParams (describeTable args w) w.
Proof.
  intros Hf.
  assert (H : exists issues, safeParse (required ["table"] TableSchema) args = inr issues).
  { destruct args as [| | | | |elems|props]; try (eexists; reflexivity).
    rewrite safeParse_describe. cbn [field] in Hf. rewrite Hf.
    eapply mergeObject_invalid. right. left. reflexivity. }
  destruct H as [issues H]. unfold describeTable. rewrite H.
  apply invalidParameters_fails.
Qed.

(** C5, as the code has it.  [describe_table] fails with [InvalidParams],
    without touching the pool, whenever the [table] argument is missing,
    whatever the other arguments are. *)
Theorem describe_table_requires_table (args : value) (w : World) :
  field args "table" = VUndefined ->
  failsInvalidParams (describeTable args w) w /\
  failsInvalidParams (callTool "describe_table" args w) w.
Proof.
  intros Hf. pose proof (describeTable_missing args w Hf) as H.
  split; [exact H|].
  rewrite callTool_describe_table. now apply callTool_failsInvalidParams.
Qed.

Lemma getTableData_invalid args w :
  field args "table" = VString "" \/
  (exists x, field args "limit" = VNumber x /\ SFleb x (S754_zero false) = true) ->
  failsInvalidParams (getTableData args w) w.
Proof.
  intros Hf.
  assert (H : exists issues, safeParse TableDataSchema args = inr issues).
  { destruct args as [| | | | |elems|props]; try (eexists; reflexivity).
    rewrite safeParse_tableData. cbn [field] in Hf.
    destruct Hf as [Ht|(x & Hl & Hx)].
    - rewrite Ht. eapply mergeObject_invalid. left. reflexivity.
    - rewrite Hl. cbn [parseAt]. rewrite Hx. cbn [andb].
      destruct (isNaN x); eapply mergeObject_invalid; right; right; left; reflexivity. }
  destruct H as [issues H]. unfold getTableData. rewrite H.
  apply invalidParameters_fails.
Qed.

(** C7.  [get_table_data] fails with [InvalidParams] whenever the [table]
    argument is the empty string or the [limit] argument is a number that is
    zero or negative; the pool is not touched. *)
Theorem get_table_data_checks_arguments (args : value) (w : World) :
  field args "table" = VString "" \/
  (exists x, field args "limit" = VNumber x /\ SFleb x (S754_zero false) = true) ->
  failsInvalidParams (getTableData args w) w /\
  failsInvalidParams (callTool "get_table_data" args w) w.
Proof.
  intros Hf. pose proof (getTableData_invalid args w Hf) as H.
  split; [exact H|].
  rewrite callTool_get_table_data. now apply callTool_failsInvalidParams.
Qed.

(** ** The payload of [query_database] *)




Lemma serialize_object indent props :
  SerializeJSONProperty indent (VObject props)
  = Some (wrap "{" "}" indent (indent ++ gap) (objectMembers (indent ++ gap) props)).
Proof.
  cbn [SerializeJSONProperty]. f_equal. f_equal.
  induction props as [|[k x] props IH]; [reflexivity|].
  unfold objectMembers. cbn [flat_map fst snd]. fold (objectMembers (indent ++ gap) props).
  rewrite <- IH. destruct (SerializeJSONProperty (indent ++ gap) x); reflexivity.
Qed.




(** ** The guard lets a keyword through when no white space follows it *)

(** C10.  The bare statement [DROP], and [DELETE/**/FROM t] where a comment
    follows the keyword, do not begin with [select] and yet pass the guard:
    there is a statement made of a mutating keyword immediately followed by a
    character that is not white space which [executeQuery] runs on the pool. *)
Theorem keyword_without_white_space_passes_guard :
  (beginsWithSelect "DROP" = false /\ guardRejects "DROP" = false) /\
  (beginsWithSelect "DELETE/**/FROM t" = false /\ guardRejects "DELETE/**/FROM t" = false) /\
  exists sql kw c after,
    In kw mutatingKeywords /\
    sql = (kw ++ String c after)%string /\
    isWhiteSpace c = false /\
    beginsWithSelect sql = false /\
    guardRejects sql = false /\
    forall w, executeQuery (VObject [("sql", VString sql)]) w = runQuery sql [] w.
Proof.
  split; [split; reflexivity|]. split; [split; reflexivity|].
  exists "DELETE/**/FROM t"%string, "DELETE"%string, "/"%char, "**/FROM t"%string.
  repeat split; try reflexivity.
  simpl. tauto.
Qed.

(** ** [list_tables] *)



(** *** Ordering by insertion, as the sample database does *)






(** *** An ordered list is determined by its elements

    when no two of them share the value of the sort column. *)


(** *** The text of [listTables] as the database reads it *)



Lemma safeParse_TableSchema props :
  safeParse TableSchema (VObject props)
  = mergeObject props
      [ ("schema"%string,
          parseAt (ZodDefault (ZodOptional (ZodString None)) (VString "public"))
            [Key "schema"] (getProp props "schema"));
        ("table"%string,
          parseAt (ZodOptional (ZodString None)) [Key "table"] (getProp props "table")) ].
Proof. reflexivity. Qed.

Lemma TableSchema_valid props schema :
  schemaArgument props schema -> tableArgumentOk props ->
  exists data, safeParse TableSchema (VObject props) = inl data /\
               field data "schema" = VString schema.
Proof.
  intros Hs Ht. rewrite safeParse_TableSchema.
  assert (H1 : parseAt (ZodDefault (ZodOptional (ZodString None)) (VString "public"))
                 [Key "schema"] (getProp props "schema") = inl (VString schema)).
  { destruct Hs as [->|[-> ->]]; reflexivity. }
  assert (H2 : exists v, parseAt (ZodOptional (ZodString None)) [Key "table"]
                           (getProp props "table") = inl v).
  { destruct Ht as [->|[t ->]]; eexists; reflexivity. }
  destruct H2 as [v H2]. rewrite H1, H2.
  eexists. split; [reflexivity|]. cbn [field].
  apply getProp_members.
  - repeat constructor; simpl; intuition discriminate.
  - now left.
Qed.



End ServerFacts.

(** ** The handlers run on the sample pool *)


(** The order is that of the [ORDER BY] clause: the same statement
    without it is answered in the order of the catalog. *)
Example rows_without_order_by :
  sampleQuery
    "SELECT table_name, table_type FROM information_schema.tables WHERE table_schema = $1"
    [VString "public"] sampleCatalog
  = inr (OneResult
           (mkResult
              [tableRow (mkTable "public" "weather_data" "BASE TABLE");
               tableRow (mkTable "public" "stations" "VIEW")]
              (Some (number_of_Z 2))
              (Some [mkField "table_name" (number_of_Z 19);
                     mkField "table_type" (number_of_Z 1043)]))).
Proof. reflexivity. Qed.

Example guard_on_samples :
  map guardRejects
    [ "DROP TABLE weather_data"; "  delete  from t"; "WITH x AS (SELECT 1) UPDATE t SET a = 1";
      "SELECT * FROM audit WHERE action = 'UPDATE'"; "select 1; drop table t";
      "DROP"; "DELETE/**/FROM t"; "xDROP t"; "backdrop t" ]
  = [true; true; true; false; false; false; false; false; false].
Proof. reflexivity. Qed.

(** A query that raises: the error is wrapped as [InternalError] and the
    client is released all the same. *)
Example forced_failure_releases_client :
  outcome (@callTool sampleRuntime samplePool "query_database"
             (VObject [("sql", VString "SELECT 1/0")]) sampleCatalog)
  = Thrown (McpError InternalError "Failed to execute query_database: division by zero") /\
  events (@callTool sampleRuntime samplePool "query_database"
            (VObject [("sql", VString "SELECT 1/0")]) sampleCatalog)
  = [@EvAcquire samplePool tt; @EvQuery samplePool tt "SELECT 1/0" [];
     @EvRelease samplePool tt].
Proof. split; reflexivity. Qed.

(** A result without rows is still written with its three members. *)
Example empty_result_payload :
  outcome (@callTool sampleRuntime samplePool "query_database"
             (VObject [("sql", VString "SELECT 1 WHERE false")]) sampleCatalog)
  = Returned (mkResponse [mkContent "text" (Some (queryText "[]" "0" "[]"))]).
Proof. reflexivity. Qed.

Lemma mutating_statement_rejected_witness :
  guardRejects "DROP TABLE weather_data" = true /\
  @executeQuery sampleRuntime samplePool
    (VObject [("sql", VString "DROP TABLE weather_data")]) sampleCatalog
  = @mkRan samplePool ToolResponse
      (Thrown (McpError InvalidParams
                 "Only SELECT queries are allowed for security reasons"))
      sampleCatalog [].
Proof.
  destruct (@mutating_statement_rejected sampleRuntime samplePool "DROP TABLE weather_data")
    as [Hg Hx].
  - exists ""%string, "DROP"%string, " "%char, "TABLE weather_data"%string, "DROP"%string.
    repeat split; try reflexivity. simpl. tauto.
  - reflexivity.
  - split; [exact Hg|].
    apply (Hx _ (VObject [("sql", VString "DROP TABLE weather_data"); ("params", VArray [])]));
      reflexivity.
Defined.

Lemma select_statement_allowed_witness :
  guardRejects "  Select 1; DROP TABLE weather_data" = false /\
  events (@executeQuery sampleRuntime samplePool
            (VObject [("sql", VString "  Select 1; DROP TABLE weather_data")]) sampleCatalog)
  <> [].
Proof.
  destruct (@select_statement_allowed sampleRuntime samplePool
              "  Select 1; DROP TABLE weather_data" eq_refl) as [Hg Hx].
  split; [exact Hg|].
  apply (Hx _ (VObject [("sql", VString "  Select 1; DROP TABLE weather_data");
                        ("params", VArray [])]));
    reflexivity.
Defined.

Lemma rejected_statement_never_reaches_pool_witness :
  @failsInvalidParams samplePool
    (@callTool sampleRuntime samplePool "query_database"
       (VObject [("sql", VString "DROP TABLE weather_data")]) sampleCatalog)
    sampleCatalog.
Proof.
  apply (@rejected_statement_never_reaches_pool sampleRuntime samplePool
           (VObject [("sql", VString "DROP TABLE weather_data")])
           "DROP TABLE weather_data" sampleCatalog eq_refl eq_refl).
Defined.

Lemma empty_sql_rejected_witness :
  @failsInvalidParams samplePool
    (@callTool sampleRuntime samplePool "query_database"
       (VObject [("sql", VString "")]) sampleCatalog)
    sampleCatalog.
Proof.
  apply (@empty_sql_rejected sampleRuntime samplePool
           (VObject [("sql", VString "")]) sampleCatalog eq_refl).
Defined.

Lemma describe_table_requires_table_witness :
  @failsInvalidParams samplePool
    (@callTool sampleRuntime samplePool "describe_table"
       (VObject [("schema", VString "public")]) sampleCatalog)
    sampleCatalog.
Proof.
  apply (@describe_table_requires_table sampleRuntime samplePool
           (VObject [("schema", VString "public")]) sampleCatalog eq_refl).
Defined.

(** [describe_table] with an empty [table] passes validation: the call
    acquires a client, runs both catalog queries and returns. *)
Lemma describe_table_accepts_empty_table :
  field (VObject [("table", VString "")]) "table" = VString "" /\
  outcome (@describeTable sampleRuntime samplePool
             (VObject [("table", VString "")]) sampleCatalog)
  = Returned (@textResponse sampleRuntime
                (VObject [("table", VString "public.");
                          ("columns", VArray []);
                          ("constraints", VArray [])])) /\
  ~ @failsInvalidParams samplePool
      (@describeTable sampleRuntime samplePool
         (VObject [("table", VString "")]) sampleCatalog)
      sampleCatalog.
Proof.
  split; [reflexivity|]. split; [reflexivity|].
  intros (message & Ho & _). discriminate Ho.
Qed.



Lemma get_table_data_checks_arguments_witness :
  @failsInvalidParams samplePool
    (@callTool sampleRuntime samplePool "get_table_data"
       (VObject [("table", VString "weather_data"); ("limit", VNumber (S754_zero false))])
       sampleCatalog)
    sampleCatalog.
Proof.
  apply (@get_table_data_checks_arguments sampleRuntime samplePool
           (VObject [("table", VString "weather_data"); ("limit", VNumber (S754_zero false))])
           sampleCatalog).
  right. exists (S754_zero false). split; reflexivity.
Defined.


(** On the sample catalog the tables of [public] come back as [stations],
    [weather_data]. *)
Example list_tables_on_sample_catalog :
  outcome (@listTables sampleRuntime samplePool
             (VObject [("schema", VString "public")]) sampleCatalog)
  = Returned (@textResponse sampleRuntime
                (tablesPayload "public"
                   [mkTable "public" "stations" "VIEW";
                    mkTable "public" "weather_data" "BASE TABLE"])).
Proof. reflexivity. Qed.

(** * Further properties of the dispatcher and its handlers *)

(** ** Validation reads the declared arguments only *)

Lemma parseAt_object shape path props :
  parseAt (ZodObject shape) path (VObject props)
  = mergeObject props
      (map (fun kf => (fst kf, parseAt (snd kf) (path ++ [Key (fst kf)]) (getProp props (fst kf))))
           shape).
Proof.
  cbn [parseAt]. f_equal.
  induction shape as [|[k f] shape IH]; [reflexivity|].
  cbn [map fst snd]. rewrite <- IH. reflexivity.
Qed.

Lemma parseAt_any_array path elems :
  parseAt (ZodArray ZodAny) path (VArray elems) = inl (VArray elems).
Proof.
  cbn [parseAt].
  assert (H : forall i,
             (fix items (i : nat) (xs : list value) {struct xs} : list ParseReturn :=
                match xs with
                | [] => []
                | x :: xs' => parseAt ZodAny (path ++ [Index i]) x :: items (S i) xs'
                end) i elems = map inl elems).
  { induction elems as [|x xs IH]; intros i; [reflexivity|].
    cbn [map]. rewrite <- (IH (S i)). reflexivity. }
  rewrite H. clear H. unfold mergeArray.
  assert (Hi : flat_map issuesOf (map (@inl value (list ZodIssue)) elems) = []).
  { induction elems as [|x xs IH]; [reflexivity | exact IH]. }
  rewrite Hi. f_equal. f_equal.
  induction elems as [|x xs IH]; [reflexivity | simpl; now rewrite IH].
Qed.

Lemma getProp_members_any input rs k r :
  NoDup (map fst rs) -> In (k, r) rs ->
  getProp (flat_map (member input) rs) k
  = match r with inl v => v | inr _ => VUndefined end.
Proof.
  intros Hnd Hin. destruct r as [v|issues]; [now apply getProp_members|].
  induction rs as [|[k0 r0] rs IH]; [destruct Hin|].
  simpl in Hnd. inversion Hnd as [|? ? Hnot Hnd']; subst. simpl.
  destruct Hin as [Heq|Hin].
  - injection Heq as -> ->. unfold member at 1. cbn [fst snd app].
    now apply getProp_absent.
  - rewrite getProp_app_other; [now apply IH|].
    intros x Hx. apply member_keys in Hx. simpl in Hx. subst k0. apply Hnot.
    apply (in_map fst) in Hin. exact Hin.
Qed.

(** Two argument objects whose declared arguments parse alike validate
    alike: with the same issues, or to records that agree on every declared key. *)
Lemma safeParse_agree t shape props1 props2 :
  t = ZodObject shape ->
  NoDup (map fst shape) ->
  (forall k f, In (k, f) shape ->
     parseAt f [Key k] (getProp props1 k) = parseAt f [Key k] (getProp props2 k)) ->
  (exists issues, safeParse t (VObject props1) = inr issues /\
                  safeParse t (VObject props2) = inr issues) \/
  (exists d1 d2, safeParse t (VObject props1) = inl d1 /\
                 safeParse t (VObject props2) = inl d2 /\
                 forall k, In k (map fst shape) -> field d1 k = field d2 k).
Proof.
  intros -> Hnd Hsame. unfold safeParse. rewrite !parseAt_object.
  cbn [app].
  assert (Hrs : map (fun kf => (fst kf, parseAt (snd kf) [Key (fst kf)] (getProp props1 (fst kf))))
                    shape
                = map (fun kf => (fst kf, parseAt (snd kf) [Key (fst kf)] (getProp props2 (fst kf))))
                    shape).
  { apply map_ext_in. intros [k f] Hin. cbn [fst snd]. f_equal. now apply Hsame. }
  rewrite Hrs.
  set (rs := map (fun kf => (fst kf, parseAt (snd kf) [Key (fst kf)] (getProp props2 (fst kf))))
                 shape).
  assert (Hkeys : map fst rs = map fst shape) by (unfold rs; rewrite map_map; reflexivity).
  unfold mergeObject.
  destruct (flat_map (fun kr => issuesOf (snd kr)) rs) as [|i issues] eqn:E.
  - right. do 2 eexists. split; [reflexivity|]. split; [reflexivity|].
    intros k Hk. rewrite <- Hkeys in Hk. apply in_map_iff in Hk as ([k' r] & <- & Hin).
    cbn [fst field].
    rewrite !(getProp_members_any _ rs k' r); auto; now rewrite Hkeys.
  - left. eexists. split; reflexivity.
Qed.

(** ** How a dispatch ends *)

Section DispatchFacts.
Context {RT : Runtime} {PG : PgPool}.

Lemma throws_ret {A : Type} (a : A) : throwsErrorsOnly (ret a).
Proof. intros w e H. discriminate H. Qed.

Lemma throws_query client sql params : throwsErrorsOnly (query client sql params).
Proof.
  intros w e. unfold query.
  destruct (client_query client sql params w) as [[message|result] w']; simpl;
    intros H; [injection H as <-; eauto | discriminate H].
Qed.

Lemma throws_bind {A B : Type} (m : M A) (k : A -> M B) :
  throwsErrorsOnly m -> (forall a, throwsErrorsOnly (k a)) -> throwsErrorsOnly (bind m k).
Proof.
  intros Hm Hk w e. unfold bind. destruct (outcome (m w)) as [a|e'] eqn:E; simpl.
  - apply Hk.
  - intros H. injection H as <-. eapply Hm. exact E.
Qed.

Lemma returns_ret {A : Type} (P : A -> Prop) (a : A) : P a -> returnsOnly P (ret a).
Proof. intros Ha w a' H. injection H as <-. exact Ha. Qed.

Lemma returns_bind {A B : Type} (P : B -> Prop) (m : M A) (k : A -> M B) :
  (forall a, returnsOnly P (k a)) -> returnsOnly P (bind m k).
Proof.
  intros Hk w b. unfold bind. destruct (outcome (m w)) as [a|e]; simpl.
  - apply Hk.
  - discriminate.
Qed.

Lemma textResponse_envelope props : textEnvelope (textResponse (VObject props)).
Proof.
  unfold textEnvelope, textResponse, JSON_stringify. rewrite serialize_object.
  cbn [content]. eauto.
Qed.

Lemma withClient_ends (body : PoolClient -> M ToolResponse) w :
  (forall client, throwsErrorsOnly (body client)) ->
  (forall client, returnsOnly textEnvelope (body client)) ->
  handlerEnds (withClient body w) w.
Proof.
  intros Ht Hr. right. split; [apply withClient_uses_pool|].
  unfold withClient, connect.
  destruct (pool_connect w) as [[message|client] w']; cbn [outcome world events].
  - right. eauto.
  - destruct (outcome (body client w')) as [response|e] eqn:E.
    + left. exists response. split; [reflexivity|]. eapply Hr. exact E.
    + right. destruct (Ht client w' e E) as [message ->]. eauto.
Qed.

Create HintDb ends discriminated.
#[local] Hint Resolve throws_ret throws_query throws_bind returns_ret returns_bind
  textResponse_envelope withClient_ends invalidParameters_fails : ends.

Lemma executeQuery_ends args w : handlerEnds (executeQuery args w) w.
Proof.
  unfold executeQuery, runQuery, queryPayload.
  destruct (safeParse QuerySchema args); [|left; auto with ends].
  destruct (guardRejects _); [left; exists guardMessage; auto|].
  apply withClient_ends; intros; auto 6 with ends.
Qed.

Lemma listTables_ends args w : handlerEnds (listTables args w) w.
Proof.
  unfold listTables. destruct (safeParse TableSchema args); [|left; auto with ends].
  apply withClient_ends; intros; auto 6 with ends.
Qed.

Lemma describeTable_ends args w : handlerEnds (describeTable args w) w.
Proof.
  unfold describeTable. destruct (safeParse _ args); [|left; auto with ends].
  apply withClient_ends; intros; auto 8 with ends.
Qed.

Lemma getTableData_ends args w : handlerEnds (getTableData args w) w.
Proof.
  unfold getTableData. destruct (safeParse TableDataSchema args); [|left; auto with ends].
  apply withClient_ends; intros; auto 6 with ends.
Qed.

Lemma toolNames_listed name :
  In name toolNames <->
  name = "query_database"%string \/ name = "list_tables"%string \/
  name = "describe_table"%string \/ name = "get_table_data"%string.
Proof. unfold toolNames, tools. simpl. intuition congruence. Qed.

(** The dispatcher runs the handler of a listed tool, and throws
    [MethodNotFound] itself for any other name. *)
Lemma callTool_dispatch name args w :
  (In name toolNames /\
   exists handler, callTool name args w = catch handler (rethrow name) w /\
                   handlerEnds (handler w) w) \/
  (~ In name toolNames /\
   callTool name args w
   = mkRan (Thrown (McpError MethodNotFound ("Unknown tool: " ++ name))) w []).
Proof.
  rewrite toolNames_listed. unfold callTool.
  destruct (String.eqb name "query_database") eqn:E1.
  { apply String.eqb_eq in E1. left. split; [auto|]. eexists. split; [reflexivity|].
    apply executeQuery_ends. }
  destruct (String.eqb name "list_tables") eqn:E2.
  { apply String.eqb_eq in E2. left. split; [auto|]. eexists. split; [reflexivity|].
    apply listTables_ends. }
  destruct (String.eqb name "describe_table") eqn:E3.
  { apply String.eqb_eq in E3. left. split; [auto|]. eexists. split; [reflexivity|].
    apply describeTable_ends. }
  destruct (String.eqb name "get_table_data") eqn:E4.
  { apply String.eqb_eq in E4. left. split; [auto|]. eexists. split; [reflexivity|].
    apply getTableData_ends. }
  right. apply String.eqb_neq in E1, E2, E3, E4. split; [intuition|reflexivity].
Qed.

(** X1.  Every dispatch ends in one of four ways.  It returns one text
    content item, having used the pool.  It throws [InvalidParams], with
    the pool untouched.  It throws [MethodNotFound] naming the tool, with the
    pool untouched, and then the name is not an advertised one.  Or it throws
    [InternalError] whose message starts with "Failed to execute" and the
    tool name, having used the pool.  Nothing else is ever thrown. *)
Theorem dispatch_ends_in_four_ways (name : string) (args : value) (w : World) :
  (exists response,
      outcome (callTool name args w) = Returned response /\
      textEnvelope response /\ events (callTool name args w) <> []) \/
  (exists message,
      outcome (callTool name args w) = Thrown (McpError InvalidParams message) /\
      world (callTool name args w) = w /\ events (callTool name args w) = []) \/
  (outcome (callTool name args w)
   = Thrown (McpError MethodNotFound ("Unknown tool: " ++ name)) /\
   world (callTool name args w) = w /\ events (callTool name args w) = [] /\
   ~ In name toolNames) \/
  (exists message,
      outcome (callTool name args w)
      = Thrown (McpError InternalError ("Failed to execute " ++ name ++ ": " ++ message)) /\
      events (callTool name args w) <> []).
Proof.
  destruct (callTool_dispatch name args w)
    as [(_ & handler & -> & Hends) | (Hn & ->)].
  - destruct (catch_rethrow handler name w) as (Hw & He & Ho).
    rewrite Ho, He.
    destruct Hends as [(message & Hm & Hw' & He') | (Hev & [(response & Hr & Henv) | (message & Hm)])].
    + right. left. exists message. rewrite Hm, Hw, Hw', He'. auto.
    + left. exists response. rewrite Hr. auto.
    + right. right. right. exists message. rewrite Hm. auto.
  - right. right. left. auto.
Qed.

(** X2.  A tool name that the server does not advertise is answered with
    [MethodNotFound] and the message "Unknown tool: " followed by the name,
    whatever the arguments, with the pool untouched; an advertised name never is. *)
Theorem unknown_tool_iff_not_advertised (name : string) (args : value) (w : World) :
  (~ In name (map tool_name tools) ->
   callTool name args w
   = mkRan (Thrown (McpError MethodNotFound ("Unknown tool: " ++ name))) w []) /\
  (In name (map tool_name tools) ->
   forall message,
     outcome (callTool name args w) <> Thrown (McpError MethodNotFound message)).
Proof.
  fold toolNames. split.
  - intros Hn. destruct (callTool_dispatch name args w) as [(Hin & _) | (_ & H)];
      [contradiction | exact H].
  - intros Hin message.
    destruct (callTool_dispatch name args w)
      as [(_ & handler & -> & Hends) | (Hn & _)]; [|contradiction].
    destruct (catch_rethrow handler name w) as (_ & _ & ->).
    destruct Hends as [(m & -> & _) | (_ & [(response & -> & _) | (m & ->)])];
      discriminate.
Qed.

(** ** Refused connections *)

Lemma withClient_refused {A : Type} (body : PoolClient -> M A) w message w' :
  pool_connect w = (inl message, w') ->
  withClient body w = mkRan (Thrown (Error message)) w' [EvConnectFailed].
Proof. intros H. unfold withClient, connect. rewrite H. reflexivity. Qed.

(** X3.  When the pool refuses the connection, no tool call returns: the
    call either fails validation (or the guard, or the name) before asking
    for a connection, or it throws [InternalError] carrying the pool's
    message, having neither run a query nor released anything. *)
Theorem refused_connection_is_internal_error
    (name : string) (args : value) (w w' : World) (message : string) :
  pool_connect w = (inl message, w') ->
  (exists code text,
      outcome (callTool name args w) = Thrown (McpError code text) /\
      code <> InternalError /\
      world (callTool name args w) = w /\ events (callTool name args w) = []) \/
  callTool name args w
  = mkRan (Thrown (McpError InternalError
                     ("Failed to execute " ++ name ++ ": " ++ message)))
      w' [EvConnectFailed].
Proof.
  intros Hc.
  assert (Hh : forall handler : M ToolResponse,
             failsInvalidParams (handler w) w \/
             handler w = mkRan (Thrown (Error message)) w' [EvConnectFailed] ->
             (exists code text,
                 outcome (catch handler (rethrow name) w) = Thrown (McpError code text) /\
                 code <> InternalError /\
                 world (catch handler (rethrow name) w) = w /\
                 events (catch handler (rethrow name) w) = []) \/
             catch handler (rethrow name) w
             = mkRan (Thrown (McpError InternalError
                                ("Failed to execute " ++ name ++ ": " ++ message)))
                 w' [EvConnectFailed]).
  { intros handler [(text & Ho & Hw & He) | H].
    - left. destruct (catch_rethrow handler name w) as (Hw' & He' & Ho').
      exists InvalidParams, text. rewrite Ho', Ho, Hw', He', Hw, He.
      repeat split; auto. discriminate.
    - right. unfold catch. rewrite H. reflexivity. }
  unfold callTool.
  destruct (String.eqb name "query_database").
  { apply Hh. unfold executeQuery, runQuery.
    destruct (safeParse QuerySchema args); [|left; apply invalidParameters_fails].
    destruct (guardRejects _); [left; exists guardMessage; auto|].
    right. now apply withClient_refused. }
  destruct (String.eqb name "list_tables").
  { apply Hh. unfold listTables.
    destruct (safeParse TableSchema args); [|left; apply invalidParameters_fails].
    right. now apply withClient_refused. }
  destruct (String.eqb name "describe_table").
  { apply Hh. unfold describeTable.
    destruct (safeParse _ args); [|left; apply invalidParameters_fails].
    right. now apply withClient_refused. }
  destruct (String.eqb name "get_table_data").
  { apply Hh. unfold getTableData.
    destruct (safeParse TableDataSchema args); [|left; apply invalidParameters_fails].
    right. now apply withClient_refused. }
  left. exists MethodNotFound, ("Unknown tool: " ++ name)%string.
  repeat split; auto. discriminate.
Qed.

(** ** What a valid call sends to the database *)

Lemma catch_rethrow_eq {A : Type} (m : M A) name w o w' es :
  m w = mkRan o w' es ->
  catch m (rethrow name) w
  = mkRan
      match o with
      | Returned a => Returned a
      | Thrown (McpError code message) => Thrown (McpError code message)
      | Thrown (Error message) =>
          Thrown (McpError InternalError
                    ("Failed to execute " ++ name ++ ": " ++ message))
      end w' es.
Proof.
  intros H. unfold catch. rewrite H.
  destruct o as [a|[code message|message]]; cbn; rewrite ?app_nil_r; reflexivity.
Qed.

Lemma withClient_one_query {A : Type} (f : Resolved -> A) sql params w client w1 res w2 :
  pool_connect w = (inr client, w1) ->
  client_query client sql params w1 = (res, w2) ->
  withClient (fun client => bind (query client sql params) (fun result => ret (f result))) w
  = mkRan
      match res with
      | inr result => Returned (f result)
      | inl message => Thrown (Error message)
      end (client_release client w2) (session client [(sql, params)]).
Proof.
  intros Hc Hq. unfold withClient, connect. rewrite Hc. cbn [outcome world events].
  unfold bind, query. rewrite Hq. destruct res; reflexivity.
Qed.

Lemma withClient_two_queries {A : Type} (f : Resolved -> Resolved -> A)
    sql1 params1 sql2 params2 w client w1 res1 w2 res2 w3 :
  pool_connect w = (inr client, w1) ->
  client_query client sql1 params1 w1 = (res1, w2) ->
  client_query client sql2 params2 w2 = (res2, w3) ->
  withClient (fun client =>
    bind (query client sql1 params1) (fun r1 =>
    bind (query client sql2 params2) (fun r2 => ret (f r1 r2)))) w
  = match res1 with
    | inl message =>
        mkRan (Thrown (Error message)) (client_release client w2)
          (session client [(sql1, params1)])
    | inr r1 =>
        mkRan
          match res2 with
          | inl message => Thrown (Error message)
          | inr r2 => Returned (f r1 r2)
          end (client_release client w3)
          (session client [(sql1, params1); (sql2, params2)])
    end.
Proof.
  intros Hc Hq1 Hq2. unfold withClient, connect. rewrite Hc. cbn [outcome world events].
  unfold bind, query. rewrite Hq1.
  destruct res1 as [message|r1]; cbn [outcome world events]; [reflexivity|].
  rewrite Hq2. destruct res2; reflexivity.
Qed.

Lemma parse_schema_argument props schema path :
  schemaArgument props schema ->
  parseAt (ZodDefault (ZodOptional (ZodString None)) (VString "public"))
    path (getProp props "schema") = inl (VString schema).
Proof. intros [->|[-> ->]]; reflexivity. Qed.

Lemma QuerySchema_accepts props sql params :
  getProp props "sql" = VString sql -> sql <> ""%string ->
  getProp props "params" = VArray params \/
  (getProp props "params" = VUndefined /\ params = []) ->
  exists data, safeParse QuerySchema (VObject props) = inl data /\
               field data "sql" = VString sql /\
               field data "params" = VArray params.
Proof.
  intros Hs Hne Hp. rewrite safeParse_QuerySchema.
  assert (H1 : parseAt (ZodString (Some (1%nat, "SQL query cannot be empty"%string)))
                 [Key "sql"] (getProp props "sql") = inl (VString sql)).
  { rewrite Hs, parseAt_string_min. destruct sql; [contradiction | reflexivity]. }
  assert (H2 : parseAt (ZodDefault (ZodOptional (ZodArray ZodAny)) (VArray []))
                 [Key "params"] (getProp props "params") = inl (VArray params)).
  { destruct Hp as [->|[-> ->]]; [|reflexivity].
    change (parseAt (ZodDefault (ZodOptional (ZodArray ZodAny)) (VArray []))
              [Key "params"] (VArray params))
      with (parseAt (ZodArray ZodAny) [Key "params"] (VArray params)).
    apply parseAt_any_array. }
  rewrite H1, H2. eexists. split; [reflexivity|]. cbn [field].
  split; apply getProp_members;
    try (repeat constructor; simpl; intuition discriminate); simpl; auto.
Qed.

Lemma describe_accepts props schema table :
  schemaArgument props schema ->
  getProp props "table" = VString table ->
  exists data, safeParse (required ["table"] TableSchema) (VObject props) = inl data /\
               field data "schema" = VString schema /\
               field data "table" = VString table.
Proof.
  intros Hs Ht. rewrite safeParse_describe.
  rewrite (parse_schema_argument props schema _ Hs), Ht.
  eexists. split; [reflexivity|]. cbn [field].
  split; apply getProp_members;
    try (repeat constructor; simpl; intuition discriminate); simpl; auto.
Qed.

Lemma tableData_accepts props schema table limit :
  getProp props "table" = VString table -> table <> ""%string ->
  schemaArgument props schema ->
  limitArgument props limit ->
  exists data, safeParse TableDataSchema (VObject props) = inl data /\
               field data "table" = VString table /\
               field data "schema" = VString schema /\
               field data "limit" = VNumber limit.
Proof.
  intros Ht Hne Hs Hl. rewrite safeParse_tableData.
  assert (H1 : parseAt (ZodString (Some (1%nat, "Table name cannot be empty"%string)))
                 [Key "table"] (getProp props "table") = inl (VString table)).
  { rewrite Ht, parseAt_string_min. destruct table; [contradiction | reflexivity]. }
  assert (H3 : parseAt (ZodDefault (ZodOptional (ZodNumber true)) (VNumber ten))
                 [Key "limit"] (getProp props "limit") = inl (VNumber limit)).
  { destruct Hl as [(-> & Hn & Hp)|[-> ->]]; [|reflexivity].
    cbn [parseAt]. rewrite Hn, Hp. reflexivity. }
  rewrite H1, H3, (parse_schema_argument props schema _ Hs).
  eexists. split; [reflexivity|]. cbn [field].
  repeat split; apply getProp_members;
    try (repeat constructor; simpl; intuition discriminate); simpl; auto.
Qed.

(** X4.  With a non-empty [sql] that the guard lets through and [params]
    an array (none when left out), [query_database] acquires a client, sends
    exactly that text with exactly those parameters, and releases the client.
    It returns the serialized result, or [InternalError] with the driver's
    message when the query raises. *)
Theorem query_database_runs_statement_as_given
    (props : list (string * value)) (sql : string) (params : list value)
    (w w1 w2 : World) (client : PoolClient) (res : string + Resolved) :
  getProp props "sql" = VString sql -> sql <> ""%string ->
  getProp props "params" = VArray params \/
  (getProp props "params" = VUndefined /\ params = []) ->
  guardRejects sql = false ->
  pool_connect w = (inr client, w1) ->
  client_query client sql params w1 = (res, w2) ->
  callTool "query_database" (VObject props) w
  = mkRan
      match res with
      | inr result => Returned (textResponse (queryPayload result))
      | inl message =>
          Thrown (McpError InternalError ("Failed to execute query_database: " ++ message))
      end (client_release client w2) (session client [(sql, params)]).
Proof.
  intros Hs Hne Hp Hg Hc Hq.
  destruct (QuerySchema_accepts props sql params Hs Hne Hp) as (data & Hd & Hfs & Hfp).
  rewrite callTool_query_database.
  rewrite (catch_rethrow_eq (executeQuery (VObject props)) "query_database" w
             match res with
             | inr result => Returned (textResponse (queryPayload result))
             | inl message => Thrown (Error message)
             end (client_release client w2) (session client [(sql, params)])).
  - destruct res; reflexivity.
  - unfold executeQuery. rewrite Hd, Hfs, Hfp.
    change (asString (VString sql)) with sql.
    change (asArray (VArray params)) with params. rewrite Hg.
    unfold runQuery.
    apply (withClient_one_query (fun result => textResponse (queryPayload result))
             sql params w client w1 res w2); assumption.
Qed.

(** X5.  [list_tables] never puts the schema name into the SQL text: with
    valid arguments it sends the one fixed catalog query, with the schema
    (["public"] when left out) as its only parameter, and answers with the
    schema and the rows as the database returned them. *)
Theorem list_tables_binds_schema_as_parameter
    (props : list (string * value)) (schema : string)
    (w w1 w2 : World) (client : PoolClient) (res : string + Resolved) :
  schemaArgument props schema -> tableArgumentOk props ->
  pool_connect w = (inr client, w1) ->
  client_query client listTablesSql [VString schema] w1 = (res, w2) ->
  callTool "list_tables" (VObject props) w
  = mkRan
      match res with
      | inr result =>
          Returned (textResponse
                      (VObject [("schema", VString schema); ("tables", resultRows result)]))
      | inl message =>
          Thrown (McpError InternalError ("Failed to execute list_tables: " ++ message))
      end (client_release client w2) (session client [(listTablesSql, [VString schema])]).
Proof.
  intros Hs Ht Hc Hq.
  destruct (TableSchema_valid props schema Hs Ht) as (data & Hd & Hf).
  rewrite callTool_list_tables.
  rewrite (catch_rethrow_eq (listTables (VObject props)) "list_tables" w
             match res with
             | inr result =>
                 Returned (textResponse
                             (VObject [("schema", VString schema);
                                       ("tables", resultRows result)]))
             | inl message => Thrown (Error message)
             end (client_release client w2)
             (session client [(listTablesSql, [VString schema])])).
  - destruct res; reflexivity.
  - unfold listTables. rewrite Hd, Hf. change (asString (VString schema)) with schema.
    apply (withClient_one_query
             (fun result =>
                textResponse (VObject [("schema", VString schema);
                                       ("tables", resultRows result)]))
             listTablesSql [VString schema] w client w1 res w2);
      assumption.
Qed.

(** X6.  [describe_table] with a [table] string runs the columns query and
    then the constraints query on one client, each with the schema and the
    table as parameters, and releases the client.  When the columns query
    raises, the constraints query is not run; when either raises, the call
    throws [InternalError] with the driver's message. *)
Theorem describe_table_runs_two_queries_in_order
    (props : list (string * value)) (schema table : string)
    (w w1 w2 w3 : World) (client : PoolClient) (res1 res2 : string + Resolved) :
  schemaArgument props schema ->
  getProp props "table" = VString table ->
  pool_connect w = (inr client, w1) ->
  client_query client columnsSql [VString schema; VString table] w1 = (res1, w2) ->
  client_query client constraintsSql [VString schema; VString table] w2 = (res2, w3) ->
  callTool "describe_table" (VObject props) w
  = match res1 with
    | inl message =>
        mkRan (Thrown (McpError InternalError
                         ("Failed to execute describe_table: " ++ message)))
          (client_release client w2)
          (session client [(columnsSql, [VString schema; VString table])])
    | inr columnsResult =>
        mkRan
          match res2 with
          | inl message =>
              Thrown (McpError InternalError
                        ("Failed to execute describe_table: " ++ message))
          | inr constraintsResult =>
              Returned (textResponse
                          (VObject [ ("table", VString (schema ++ "." ++ table));
                                     ("columns", resultRows columnsResult);
                                     ("constraints", resultRows constraintsResult) ]))
          end (client_release client w3)
          (session client [ (columnsSql, [VString schema; VString table]);
                            (constraintsSql, [VString schema; VString table]) ])
    end.
Proof.
  intros Hs Ht Hc Hq1 Hq2.
  destruct (describe_accepts props schema table Hs Ht) as (data & Hd & Hfs & Hft).
  rewrite callTool_describe_table.
  assert (H : describeTable (VObject props) w
              = match res1 with
                | inl message =>
                    mkRan (Thrown (Error message)) (client_release client w2)
                      (session client [(columnsSql, [VString schema; VString table])])
                | inr columnsResult =>
                    mkRan
                      match res2 with
                      | inl message => Thrown (Error message)
                      | inr constraintsResult =>
                          Returned
                            (textResponse
                               (VObject [ ("table", VString (schema ++ "." ++ table));
                                          ("columns", resultRows columnsResult);
                                          ("constraints", resultRows constraintsResult) ]))
                      end (client_release client w3)
                      (session client [ (columnsSql, [VString schema; VString table]);
                                        (constraintsSql, [VString schema; VString table]) ])
                end).
  { unfold describeTable. rewrite Hd, Hfs, Hft.
    change (asString (VString schema)) with schema.
    change (asString (VString table)) with table.
    apply (withClient_two_queries
             (fun columnsResult constraintsResult =>
                textResponse
                  (VObject [ ("table", VString (schema ++ "." ++ table));
                             ("columns", resultRows columnsResult);
                             ("constraints", resultRows constraintsResult) ]))
             columnsSql [VString schema; VString table]
             constraintsSql [VString schema; VString table]
             w client w1 res1 w2 res2 w3); assumption. }
  destruct res1 as [message|columnsResult].
  - exact (catch_rethrow_eq _ _ _ _ _ _ H).
  - rewrite (catch_rethrow_eq _ _ _ _ _ _ H). destruct res2; reflexivity.
Qed.

(** X7.  [get_table_data] builds its SQL text from the arguments: with a
    non-empty [table], a schema (["public"] when left out) and a positive
    limit (10 when left out), it sends "SELECT * FROM schema.table LIMIT $1"
    with the two names put into the text as they came and the limit as the
    only parameter.  The text is not passed through the statement guard. *)
Theorem get_table_data_puts_names_into_sql
    (props : list (string * value)) (schema table : string) (limit : spec_float)
    (w w1 w2 : World) (client : PoolClient) (res : string + Resolved) :
  getProp props "table" = VString table -> table <> ""%string ->
  schemaArgument props schema ->
  limitArgument props limit ->
  pool_connect w = (inr client, w1) ->
  client_query client ("SELECT * FROM " ++ schema ++ "." ++ table ++ " LIMIT $1")
    [VNumber limit] w1 = (res, w2) ->
  callTool "get_table_data" (VObject props) w
  = mkRan
      match res with
      | inr result =>
          Returned (textResponse
                      (VObject [ ("table", VString (schema ++ "." ++ table));
                                 ("limit", VNumber limit);
                                 ("rowCount", resultRowCount result);
                                 ("data", resultRows result) ]))
      | inl message =>
          Thrown (McpError InternalError ("Failed to execute get_table_data: " ++ message))
      end (client_release client w2)
      (session client
         [(("SELECT * FROM " ++ schema ++ "." ++ table ++ " LIMIT $1")%string,
           [VNumber limit])]).
Proof.
  intros Ht Hne Hs Hl Hc Hq.
  destruct (tableData_accepts props schema table limit Ht Hne Hs Hl)
    as (data & Hd & Hft & Hfs & Hfl).
  rewrite callTool_get_table_data.
  rewrite (catch_rethrow_eq (getTableData (VObject props)) "get_table_data" w
             match res with
             | inr result =>
                 Returned (textResponse
                             (VObject [ ("table", VString (schema ++ "." ++ table));
                                        ("limit", VNumber limit);
                                        ("rowCount", resultRowCount result);
                                        ("data", resultRows result) ]))
             | inl message => Thrown (Error message)
             end (client_release client w2)
             (session client
                [(("SELECT * FROM " ++ schema ++ "." ++ table ++ " LIMIT $1")%string,
                  [VNumber limit])])).
  - destruct res; reflexivity.
  - unfold getTableData. rewrite Hd, Hft, Hfs, Hfl.
    change (asString (VString schema)) with schema.
    change (asString (VString table)) with table.
    apply (withClient_one_query
             (fun result =>
                textResponse
                  (VObject [ ("table", VString (schema ++ "." ++ table));
                             ("limit", VNumber limit);
                             ("rowCount", resultRowCount result);
                             ("data", resultRows result) ]))
             _ [VNumber limit] w client w1 res w2);
      assumption.
Qed.

(** ** Arguments: what is read, what is required, what is defaulted *)

Lemma validated_handler_agree t shape (K : value -> M ToolResponse) props1 props2 w :
  t = ZodObject shape ->
  NoDup (map fst shape) ->
  (forall k f, In (k, f) shape ->
     parseAt f [Key k] (getProp props1 k) = parseAt f [Key k] (getProp props2 k)) ->
  (forall d1 d2, (forall k, In k (map fst shape) -> field d1 k = field d2 k) -> K d1 = K d2) ->
  match safeParse t (VObject props1) with
  | inr issues => invalidParameters issues
  | inl data => K data
  end w
  = match safeParse t (VObject props2) with
    | inr issues => invalidParameters issues
    | inl data => K data
    end w.
Proof.
  intros Ht Hnd Hsame HK.
  destruct (safeParse_agree t shape props1 props2 Ht Hnd Hsame)
    as [(issues & -> & ->) | (d1 & d2 & -> & -> & Hf)]; [reflexivity|].
  now rewrite (HK d1 d2 Hf).
Qed.

Ltac declared_keys :=
  repeat constructor; simpl; intuition discriminate.

Lemma executeQuery_agree props1 props2 w :
  (forall k f, In (k, f) [ ("sql"%string, ZodString (Some (1%nat, "SQL query cannot be empty"%string)));
                           ("params"%string, ZodDefault (ZodOptional (ZodArray ZodAny)) (VArray [])) ] ->
     parseAt f [Key k] (getProp props1 k) = parseAt f [Key k] (getProp props2 k)) ->
  executeQuery (VObject props1) w = executeQuery (VObject props2) w.
Proof.
  intros H. unfold executeQuery.
  apply (validated_handler_agree QuerySchema _
           (fun data =>
              if guardRejects (asString (field data "sql"))
              then throw (McpError InvalidParams guardMessage)
              else runQuery (asString (field data "sql")) (asArray (field data "params")))
           props1 props2 w eq_refl); [declared_keys | exact H |].
  intros d1 d2 Hf. rewrite (Hf "sql"%string), (Hf "params"%string); simpl; auto.
Qed.

Lemma listTables_agree props1 props2 w :
  (forall k f, In (k, f) [ ("schema"%string, ZodDefault (ZodOptional (ZodString None)) (VString "public"));
                           ("table"%string, ZodOptional (ZodString None)) ] ->
     parseAt f [Key k] (getProp props1 k) = parseAt f [Key k] (getProp props2 k)) ->
  listTables (VObject props1) w = listTables (VObject props2) w.
Proof.
  intros H. unfold listTables.
  apply (validated_handler_agree TableSchema _
           (fun data =>
              withClient (fun client =>
                bind (query client listTablesSql [VString (asString (field data "schema"))])
                  (fun result =>
                     ret (textResponse
                            (VObject [("schema", VString (asString (field data "schema")));
                                      ("tables", resultRows result)])))))
           props1 props2 w eq_refl); [declared_keys | exact H |].
  intros d1 d2 Hf. rewrite (Hf "schema"%string); simpl; auto.
Qed.

Lemma describeTable_agree props1 props2 w :
  (forall k f, In (k, f) [ ("schema"%string, ZodDefault (ZodOptional (ZodString None)) (VString "public"));
                           ("table"%string, ZodString None) ] ->
     parseAt f [Key k] (getProp props1 k) = parseAt f [Key k] (getProp props2 k)) ->
  describeTable (VObject props1) w = describeTable (VObject props2) w.
Proof.
  intros H. unfold describeTable.
  apply (validated_handler_agree (required ["table"] TableSchema) _
           (fun data =>
              withClient (fun client =>
                bind (query client columnsSql
                        [VString (asString (field data "schema"));
                         VString (asString (field data "table"))])
                  (fun columnsResult =>
                bind (query client constraintsSql
                        [VString (asString (field data "schema"));
                         VString (asString (field data "table"))])
                  (fun constraintsResult =>
                     ret (textResponse
                            (VObject
                               [ ("table",
                                   VString (asString (field data "schema") ++ "."
                                            ++ asString (field data "table")));
                                 ("columns", resultRows columnsResult);
                                 ("constraints", resultRows constraintsResult) ]))))))
           props1 props2 w eq_refl); [declared_keys | exact H |].
  intros d1 d2 Hf. rewrite (Hf "schema"%string), (Hf "table"%string); simpl; auto.
Qed.

Lemma getTableData_agree props1 props2 w :
  (forall k f, In (k, f) [ ("table"%string, ZodString (Some (1%nat, "Table name cannot be empty"%string)));
                           ("schema"%string, ZodDefault (ZodOptional (ZodString None)) (VString "public"));
                           ("limit"%string, ZodDefault (ZodOptional (ZodNumber true)) (VNumber ten)) ] ->
     parseAt f [Key k] (getProp props1 k) = parseAt f [Key k] (getProp props2 k)) ->
  getTableData (VObject props1) w = getTableData (VObject props2) w.
Proof.
  intros H. unfold getTableData.
  apply (validated_handler_agree TableDataSchema _
           (fun data =>
              withClient (fun client =>
                bind (query client
                        (tableDataSql (asString (field data "schema"))
                           (asString (field data "table")))
                        [field data "limit"])
                  (fun result =>
                     ret (textResponse
                            (VObject
                               [ ("table",
                                   VString (asString (field data "schema") ++ "."
                                            ++ asString (field data "table")));
                                 ("limit", field data "limit");
                                 ("rowCount", resultRowCount result);
                                 ("data", resultRows result) ])))))
           props1 props2 w eq_refl); [declared_keys | exact H |].
  intros d1 d2 Hf.
  rewrite (Hf "schema"%string), (Hf "table"%string), (Hf "limit"%string); simpl; auto.
Qed.

(** X8.  A tool reads its declared arguments only: two argument objects
    that agree on the arguments the tool validates get the same answer,
    whatever else they contain. *)
Theorem undeclared_arguments_are_ignored
    (name : string) (props1 props2 : list (string * value)) (w : World) :
  (forall k, In k (argumentKeys name) -> getProp props1 k = getProp props2 k) ->
  callTool name (VObject props1) w = callTool name (VObject props2) w.
Proof.
  intros H. unfold callTool, catch. unfold argumentKeys in H.
  destruct (String.eqb name "query_database").
  { rewrite (executeQuery_agree props1 props2 w); [reflexivity|].
    intros k f Hin. rewrite (H k); [reflexivity|].
    simpl in *. intuition congruence. }
  destruct (String.eqb name "list_tables").
  { rewrite (listTables_agree props1 props2 w); [reflexivity|].
    intros k f Hin. rewrite (H k); [reflexivity|].
    simpl in *. intuition congruence. }
  destruct (String.eqb name "describe_table").
  { rewrite (describeTable_agree props1 props2 w); [reflexivity|].
    intros k f Hin. rewrite (H k); [reflexivity|].
    simpl in *. intuition congruence. }
  destruct (String.eqb name "get_table_data").
  { rewrite (getTableData_agree props1 props2 w); [reflexivity|].
    intros k f Hin. rewrite (H k); [reflexivity|].
    simpl in *. intuition congruence. }
  reflexivity.
Qed.

Ltac same_parse Hu :=
  let k := fresh "k" in
  let f := fresh "f" in
  let Hin := fresh "Hin" in
  let Heq := fresh "Heq" in
  intros k f Hin; simpl in Hin;
  repeat (destruct Hin as [Heq|Hin];
          [injection Heq as <- <-; simpl getProp; rewrite ?Hu; reflexivity|]);
  destruct Hin.

(** X9.  The defaults the server advertises are the defaults it applies:
    for every advertised tool and every property its input schema gives a
    default for, leaving the argument out gets the same answer as passing
    the advertised default. *)
Theorem advertised_defaults_are_applied
    (t : Tool) (key : string) (d : value) (props : list (string * value)) (w : World) :
  In t tools ->
  In (key, d) (advertisedDefaults t) ->
  getProp props key = VUndefined ->
  callTool (tool_name t) (VObject ((key, d) :: props)) w
  = callTool (tool_name t) (VObject props) w.
Proof.
  intros Ht Hd Hu. unfold tools in Ht. simpl in Ht.
  destruct Ht as [<-|[<-|[<-|[<-|[]]]]]; simpl in Hd;
    repeat (destruct Hd as [Hd|Hd]; [injection Hd as <- <-|]); try destruct Hd;
    cbn [tool_name].
  - rewrite !callTool_query_database. unfold catch.
    rewrite (executeQuery_agree (("params"%string, VArray []) :: props) props w);
      [reflexivity | same_parse Hu].
  - rewrite !callTool_list_tables. unfold catch.
    rewrite (listTables_agree (("schema"%string, VString "public") :: props) props w);
      [reflexivity | same_parse Hu].
  - rewrite !callTool_describe_table. unfold catch.
    rewrite (describeTable_agree (("schema"%string, VString "public") :: props) props w);
      [reflexivity | same_parse Hu].
  - rewrite !callTool_get_table_data. unfold catch.
    rewrite (getTableData_agree (("schema"%string, VString "public") :: props) props w);
      [reflexivity | same_parse Hu].
  - rewrite !callTool_get_table_data. unfold catch.
    rewrite (getTableData_agree (("limit"%string, VNumber ten) :: props) props w);
      [reflexivity | same_parse Hu].
Qed.

(** X10.  What the server advertises as required it enforces: for every
    advertised tool and every property listed under [required] in its input
    schema, a call that leaves the argument out fails with [InvalidParams]
    before the pool is touched. *)
Theorem advertised_required_are_enforced
    (t : Tool) (key : string) (args : value) (w : World) :
  In t tools ->
  In key (advertisedRequired t) ->
  field args key = VUndefined ->
  failsInvalidParams (callTool (tool_name t) args w) w.
Proof.
  intros Ht Hk Hu. unfold tools in Ht. simpl in Ht.
  destruct Ht as [<-|[<-|[<-|[<-|[]]]]]; simpl in Hk;
    repeat (destruct Hk as [<- | Hk]); try destruct Hk; cbn [tool_name].
  - rewrite callTool_query_database. apply callTool_failsInvalidParams.
    destruct (safeParse QuerySchema args) as [data|issues] eqn:Hp.
    + destruct (QuerySchema_valid _ _ Hp) as (sql & Hs & _). congruence.
    + unfold executeQuery. rewrite Hp. apply invalidParameters_fails.
  - rewrite callTool_describe_table. apply callTool_failsInvalidParams.
    now apply describeTable_missing.
  - rewrite callTool_get_table_data. apply callTool_failsInvalidParams.
    assert (H : exists issues, safeParse TableDataSchema args = inr issues).
    { destruct args as [| | | | |elems|props]; try (eexists; reflexivity).
      rewrite safeParse_tableData. cbn [field] in Hu. rewrite Hu.
      eapply mergeObject_invalid. left. reflexivity. }
    destruct H as [issues H]. unfold getTableData. rewrite H.
    apply invalidParameters_fails.
Qed.

Lemma not_object_invalid t shape args :
  t = ZodObject shape -> (forall props, args <> VObject props) ->
  exists issues, safeParse t args = inr issues.
Proof.
  intros -> H. destruct args; try (eexists; reflexivity).
  exfalso. eapply H. reflexivity.
Qed.

(** X11.  Every advertised tool wants an arguments object: a call whose
    arguments are missing, [null], an array or a scalar fails with
    [InvalidParams] before the pool is touched, even for [list_tables], all
    of whose arguments are optional. *)
Theorem arguments_must_be_an_object (name : string) (args : value) (w : World) :
  In name toolNames ->
  (forall props, args <> VObject props) ->
  failsInvalidParams (callTool name args w) w.
Proof.
  intros Hn Ha. apply toolNames_listed in Hn.
  destruct Hn as [-> | [-> | [-> | -> ]]].
  - rewrite callTool_query_database. apply callTool_failsInvalidParams.
    destruct (not_object_invalid QuerySchema _ args eq_refl Ha) as [issues H].
    unfold executeQuery. rewrite H. apply invalidParameters_fails.
  - rewrite callTool_list_tables. apply callTool_failsInvalidParams.
    destruct (not_object_invalid TableSchema _ args eq_refl Ha) as [issues H].
    unfold listTables. rewrite H. apply invalidParameters_fails.
  - rewrite callTool_describe_table. apply callTool_failsInvalidParams.
    destruct (not_object_invalid (required ["table"] TableSchema) _ args eq_refl Ha)
      as [issues H].
    unfold describeTable. rewrite H. apply invalidParameters_fails.
  - rewrite callTool_get_table_data. apply callTool_failsInvalidParams.
    destruct (not_object_invalid TableDataSchema _ args eq_refl Ha) as [issues H].
    unfold getTableData. rewrite H. apply invalidParameters_fails.
Qed.

Lemma invalid_member_fails t shape props k f issue issues :
  t = ZodObject shape ->
  In (k, f) shape ->
  parseAt f [Key k] (getProp props k) = inr (issue :: issues) ->
  exists all, safeParse t (VObject props) = inr all.
Proof.
  intros -> Hin Hp. unfold safeParse. rewrite parseAt_object. cbn [app].
  eapply (mergeObject_invalid props _ k issue issues).
  apply in_map_iff. exists (k, f). cbn [fst snd]. rewrite Hp. auto.
Qed.

Lemma getProp_cons k v ps key :
  getProp ((k, v) :: ps) key = if String.eqb k key then v else getProp ps key.
Proof. reflexivity. Qed.

(** The property types the four input schemas advertise. *)
Lemma advertisedType_cases t key ty :
  In t tools -> advertisedType t key = Some ty ->
  In (tool_name t, key, ty)
    [ ("query_database", "sql", "string"); ("query_database", "params", "array");
      ("list_tables", "schema", "string");
      ("describe_table", "table", "string"); ("describe_table", "schema", "string");
      ("get_table_data", "table", "string"); ("get_table_data", "schema", "string");
      ("get_table_data", "limit", "number") ]%string.
Proof.
  intros Ht Hty. unfold tools in Ht. simpl in Ht.
  destruct Ht as [<-|[<-|[<-|[<-|[]]]]]; unfold advertisedType in Hty;
    cbn [tool_name];
    match type of Hty with
    | context [field (field ?s "properties") key] =>
        let P := fresh "P" in
        set (P := field s "properties") in Hty; vm_compute in P; subst P
    end;
    cbn [field] in Hty; rewrite ?getProp_cons in Hty;
    repeat match type of Hty with
           | context [String.eqb ?k key] =>
               destruct (String.eqb_spec k key) as [<-|?];
               [vm_compute in Hty; injection Hty as <-; simpl; tauto|]
           end;
    discriminate Hty.
Qed.

(** X12.  An argument that is present with a type other than the one the
    input schema advertises for it is refused: the call fails with
    [InvalidParams] before the pool is touched. *)
Theorem ill_typed_argument_is_refused
    (t : Tool) (key ty : string) (props : list (string * value)) (w : World) :
  In t tools ->
  advertisedType t key = Some ty ->
  getProp props key <> VUndefined ->
  jsonType (getProp props key) <> ty ->
  failsInvalidParams (callTool (tool_name t) (VObject props) w) w.
Proof.
  intros Ht Hty Hdef Hne.
  assert (Hstr : forall min path,
             jsonType (getProp props key) <> "string"%string ->
             exists issue, parseAt (ZodString min) path (getProp props key) = inr [issue]).
  { intros min path H. destruct (getProp props key); try (eexists; reflexivity).
    now contradiction H. }
  assert (Hdstr : forall path def,
             jsonType (getProp props key) <> "string"%string ->
             exists issue,
               parseAt (ZodDefault (ZodOptional (ZodString None)) def) path (getProp props key)
               = inr [issue]).
  { intros path def H. destruct (getProp props key); try (eexists; reflexivity).
    - now contradiction Hdef.
    - now contradiction H. }
  assert (Harr : forall path def,
             jsonType (getProp props key) <> "array"%string ->
             exists issue,
               parseAt (ZodDefault (ZodOptional (ZodArray ZodAny)) def) path (getProp props key)
               = inr [issue]).
  { intros path def H. destruct (getProp props key); try (eexists; reflexivity).
    - now contradiction Hdef.
    - now contradiction H. }
  assert (Hnum : forall path def,
             jsonType (getProp props key) <> "number"%string ->
             exists issue,
               parseAt (ZodDefault (ZodOptional (ZodNumber true)) def) path (getProp props key)
               = inr [issue]).
  { intros path def H. destruct (getProp props key); try (eexists; reflexivity).
    - now contradiction Hdef.
    - now contradiction H. }
  pose proof (advertisedType_cases t key ty Ht Hty) as Hc. simpl in Hc.
  repeat (destruct Hc as [Hc|Hc]; [injection Hc as Hn <- <-; rewrite <- Hn|]);
    try destruct Hc.
  - rewrite callTool_query_database. apply callTool_failsInvalidParams.
    destruct (Hstr (Some (1%nat, "SQL query cannot be empty"%string)) [Key "sql"] Hne)
      as [issue Hi].
    destruct (invalid_member_fails QuerySchema _ props "sql" _ issue [] eq_refl
                (or_introl eq_refl) Hi) as [all H].
    unfold executeQuery. rewrite H. apply invalidParameters_fails.
  - rewrite callTool_query_database. apply callTool_failsInvalidParams.
    destruct (Harr [Key "params"] (VArray []) Hne) as [issue Hi].
    destruct (invalid_member_fails QuerySchema _ props "params" _ issue [] eq_refl
                (or_intror (or_introl eq_refl)) Hi) as [all H].
    unfold executeQuery. rewrite H. apply invalidParameters_fails.
  - rewrite callTool_list_tables. apply callTool_failsInvalidParams.
    destruct (Hdstr [Key "schema"] (VString "public") Hne) as [issue Hi].
    destruct (invalid_member_fails TableSchema _ props "schema" _ issue [] eq_refl
                (or_introl eq_refl) Hi) as [all H].
    unfold listTables. rewrite H. apply invalidParameters_fails.
  - rewrite callTool_describe_table. apply callTool_failsInvalidParams.
    destruct (Hstr None [Key "table"] Hne) as [issue Hi].
    destruct (invalid_member_fails (required ["table"] TableSchema) _ props "table" _ issue []
                eq_refl (or_intror (or_introl eq_refl)) Hi) as [all H].
    unfold describeTable. rewrite H. apply invalidParameters_fails.
  - rewrite callTool_describe_table. apply callTool_failsInvalidParams.
    destruct (Hdstr [Key "schema"] (VString "public") Hne) as [issue Hi].
    destruct (invalid_member_fails (required ["table"] TableSchema) _ props "schema" _ issue []
                eq_refl (or_introl eq_refl) Hi) as [all H].
    unfold describeTable. rewrite H. apply invalidParameters_fails.
  - rewrite callTool_get_table_data. apply callTool_failsInvalidParams.
    destruct (Hstr (Some (1%nat, "Table name cannot be empty"%string)) [Key "table"] Hne)
      as [issue Hi].
    destruct (invalid_member_fails TableDataSchema _ props "table" _ issue [] eq_refl
                (or_introl eq_refl) Hi) as [all H].
    unfold getTableData. rewrite H. apply invalidParameters_fails.
  - rewrite callTool_get_table_data. apply callTool_failsInvalidParams.
    destruct (Hdstr [Key "schema"] (VString "public") Hne) as [issue Hi].
    destruct (invalid_member_fails TableDataSchema _ props "schema" _ issue [] eq_refl
                (or_intror (or_introl eq_refl)) Hi) as [all H].
    unfold getTableData. rewrite H. apply invalidParameters_fails.
  - rewrite callTool_get_table_data. apply callTool_failsInvalidParams.
    destruct (Hnum [Key "limit"] (VNumber ten) Hne) as [issue Hi].
    destruct (invalid_member_fails TableDataSchema _ props "limit" _ issue [] eq_refl
                (or_intror (or_intror (or_introl eq_refl))) Hi) as [all H].
    unfold getTableData. rewrite H. apply invalidParameters_fails.
Qed.

End DispatchFacts.

(** * Further properties of the statement guard *)

(** X13.  The guard rejects nothing but what its description says: a
    rejected statement contains one of the mutating keywords, in some casing,
    starting where no word character precedes it and followed by white space,
    and does not begin with [select]. *)
Theorem guard_rejects_only_mutating_statements (sql : string) :
  guardRejects sql = true ->
  containsKeyword sql /\ beginsWithSelect sql = false.
Proof. intros H. now apply guardRejects_spec. Qed.

Lemma noWhiteSpace_app a b :
  noWhiteSpace (a ++ b) = noWhiteSpace a && noWhiteSpace b.
Proof.
  induction a as [|c a IH]; [reflexivity|].
  unfold noWhiteSpace in *. simpl. now rewrite IH, andb_assoc.
Qed.

(** X14.  A statement without any white space character always passes the
    guard, whatever keywords it is made of. *)
Theorem statement_without_white_space_passes_guard (sql : string) :
  noWhiteSpace sql = true -> isDangerous sql = false /\ guardRejects sql = false.
Proof.
  intros Hn.
  assert (Hd : isDangerous sql = false).
  { destruct (isDangerous sql) eqn:E; [|reflexivity].
    apply isDangerous_spec in E as (before & word & ws & after & kw & _ & _ & _ & Hws & ->).
    rewrite !noWhiteSpace_app in Hn. unfold noWhiteSpace at 3 in Hn. simpl in Hn.
    rewrite Hws in Hn. simpl in Hn. rewrite !andb_false_r in Hn. discriminate Hn. }
  split; [exact Hd|]. unfold guardRejects. now rewrite Hd.
Qed.

(** *** Letter case *)

Lemma sameLetter_facts a b :
  sameLetter a b = true ->
  toLowerCase_unit a = toLowerCase_unit b /\
  isWordCharacter a = isWordCharacter b /\
  isWhiteSpace a = isWhiteSpace b /\
  sameLetter b a = true.
Proof.
  intros Hab.
  assert (H : forallb
                (fun a =>
                   forallb
                     (fun b =>
                        if sameLetter a b
                        then Ascii.eqb (toLowerCase_unit a) (toLowerCase_unit b)
                             && Bool.eqb (isWordCharacter a) (isWordCharacter b)
                             && Bool.eqb (isWhiteSpace a) (isWhiteSpace b)
                             && sameLetter b a
                        else true) allUnits) allUnits = true)
    by (vm_compute; reflexivity).
  pose proof (allUnits_complete _ H a) as Ha. cbv beta in Ha.
  pose proof (allUnits_complete _ Ha b) as Hb. cbv beta in Hb.
  rewrite Hab in Hb. rewrite !andb_true_iff in Hb.
  destruct Hb as [[[H1 H2] H3] H4].
  apply Ascii.eqb_eq in H1. apply Bool.eqb_prop in H2. apply Bool.eqb_prop in H3.
  auto.
Qed.

Lemma sameUpToCase_cons s t :
  sameUpToCase s t = true ->
  (s = EmptyString /\ t = EmptyString) \/
  exists a s' b t',
    s = String a s' /\ t = String b t' /\
    sameLetter a b = true /\ sameUpToCase s' t' = true.
Proof.
  destruct s as [|a s'], t as [|b t']; simpl; try discriminate; [now left|].
  rewrite andb_true_iff. intros [H1 H2]. right. exists a, s', b, t'. auto.
Qed.

Lemma sameUpToCase_sym s :
  forall t, sameUpToCase s t = true -> sameUpToCase t s = true.
Proof.
  induction s as [|a s IH]; intros [|b t]; simpl; try discriminate; [reflexivity|].
  rewrite !andb_true_iff. intros [H1 H2].
  split; [now apply sameLetter_facts | now apply IH].
Qed.

Lemma sameUpToCase_lower s :
  forall t, sameUpToCase s t = true -> toLowerCase s = toLowerCase t.
Proof.
  induction s as [|a s IH]; intros [|b t]; simpl; try discriminate; [reflexivity|].
  rewrite andb_true_iff. intros [H1 H2].
  apply sameLetter_facts in H1 as (-> & _). now rewrite (IH t H2).
Qed.

Lemma sameUpToCase_app_inv x :
  forall y t, sameUpToCase (x ++ y) t = true ->
    exists x' y', t = (x' ++ y')%string /\
                  sameUpToCase x x' = true /\ sameUpToCase y y' = true.
Proof.
  induction x as [|a x IH]; intros y t H.
  - exists ""%string, t. auto.
  - destruct t as [|b t]; [discriminate H|]. simpl in H.
    rewrite andb_true_iff in H. destruct H as [H1 H2].
    destruct (IH y t H2) as (x' & y' & -> & Hx & Hy).
    exists (String b x'), y'. simpl. now rewrite H1, Hx.
Qed.

Lemma sameUpToCase_lastUnit s :
  forall t prev prev',
    sameUpToCase s t = true -> IsWordChar prev = IsWordChar prev' ->
    IsWordChar (lastUnit prev s) = IsWordChar (lastUnit prev' t).
Proof.
  induction s as [|a s IH]; intros [|b t] prev prev' H Hp; simpl in H;
    try discriminate; [exact Hp|].
  rewrite andb_true_iff in H. destruct H as [H1 H2]. simpl.
  apply IH; [exact H2|]. simpl. now apply sameLetter_facts.
Qed.

Lemma sameUpToCase_trimStart s :
  forall t, sameUpToCase s t = true -> sameUpToCase (trimStart s) (trimStart t) = true.
Proof.
  induction s as [|a s IH]; intros [|b t] H; simpl in H; try discriminate; [reflexivity|].
  pose proof H as H'. rewrite andb_true_iff in H'. destruct H' as [H1 H2].
  simpl. apply sameLetter_facts in H1 as (_ & _ & Hws & _). rewrite <- Hws.
  destruct (isWhiteSpace a); [now apply IH | exact H].
Qed.

Lemma containsKeyword_sameUpToCase s t :
  sameUpToCase s t = true -> containsKeyword s -> containsKeyword t.
Proof.
  intros H (before & word & ws & after & kw & Hkw & Hw & Hb & Hws & ->).
  apply sameUpToCase_app_inv in H as (before' & r & -> & Hbefore & H).
  apply sameUpToCase_app_inv in H as (word' & r' & -> & Hword & H).
  apply sameUpToCase_cons in H as [[H _]|(a & s' & ws' & after' & Ha & -> & Hl & _)];
    [discriminate H|].
  injection Ha as <- <-.
  exists before', word', ws', after', kw. split; [exact Hkw|].
  split; [|split; [|split; [|reflexivity]]].
  - unfold equalsIgnoreCase in *. now rewrite <- (sameUpToCase_lower word word' Hword).
  - now rewrite <- (sameUpToCase_lastUnit before before' None None Hbefore eq_refl).
  - apply sameLetter_facts in Hl as (_ & _ & <- & _). exact Hws.
Qed.

(** X15.  The guard does not look at the case of the letters A to Z: two
    statements that differ in nothing else get the same decision. *)
Theorem guard_ignores_letter_case (sql sql' : string) :
  sameUpToCase sql sql' = true ->
  guardRejects sql = guardRejects sql'.
Proof.
  intros H. unfold guardRejects. rewrite !startsWith_select_trim.
  unfold beginsWithSelect.
  rewrite (sameUpToCase_lower _ _ (sameUpToCase_trimStart sql sql' H)). f_equal.
  destruct (isDangerous sql) eqn:E, (isDangerous sql') eqn:E'; try reflexivity.
  - apply isDangerous_spec in E.
    apply (containsKeyword_sameUpToCase sql sql' H) in E.
    apply isDangerous_spec in E. congruence.
  - apply isDangerous_spec in E'.
    apply (containsKeyword_sameUpToCase sql' sql (sameUpToCase_sym _ _ H)) in E'.
    apply isDangerous_spec in E'. congruence.
Qed.

(** * [parseCSVLine] *)

Lemma trimStart_head s :
  trimStart s = ""%string \/
  exists c t, trimStart s = String c t /\ isWhiteSpace c = false.
Proof.
  induction s as [|c s IH]; [now left|]. simpl.
  destruct (isWhiteSpace c) eqn:E; [exact IH|]. right. eauto.
Qed.

Lemma trimEnd_head c t :
  isWhiteSpace c = false -> exists u, trimEnd (String c t) = String c u.
Proof.
  intros Hc. simpl. destruct (trimEnd t); [rewrite Hc|]; eauto.
Qed.

Lemma trimEnd_idem s : trimEnd (trimEnd s) = trimEnd s.
Proof.
  induction s as [|c s IH]; [reflexivity|]. simpl.
  destruct (trimEnd s) as [|d x] eqn:E.
  - destruct (isWhiteSpace c) eqn:Hc; [reflexivity|]. simpl. now rewrite Hc.
  - change (trimEnd (String c (String d x)))
      with (match trimEnd (String d x) with
            | EmptyString => if isWhiteSpace c then EmptyString else String c EmptyString
            | t => String c t
            end).
    now rewrite IH.
Qed.

(** Trimming a trimmed string changes nothing. *)
Lemma trim_idem s : trim (trim s) = trim s.
Proof.
  unfold trim. destruct (trimStart_head s) as [->|(c & t & -> & Hc)]; [reflexivity|].
  destruct (trimEnd_head c t Hc) as [u Hu]. rewrite Hu.
  simpl trimStart. rewrite Hc. rewrite <- Hu. apply trimEnd_idem.
Qed.

Lemma hasUnit_cons c d s : hasUnit c (String d s) = Ascii.eqb d c || hasUnit c s.
Proof. unfold hasUnit. cbn [list_ascii_of_string existsb]. now rewrite Ascii.eqb_sym. Qed.

Lemma hasUnit_cons_false c d s :
  hasUnit c (String d s) = false -> Ascii.eqb d c = false /\ hasUnit c s = false.
Proof. rewrite hasUnit_cons. apply orb_false_elim. Qed.

Lemma countUnit_cons c d s :
  countUnit c (String d s) = (if Ascii.eqb d c then 1 else 0) + countUnit c s.
Proof.
  unfold countUnit. cbn [list_ascii_of_string filter]. rewrite (Ascii.eqb_sym c d).
  destruct (Ascii.eqb d c); reflexivity.
Qed.

Lemma parseCSVLoop_cons char line result current inQuotes :
  parseCSVLoop (String char line) result current inQuotes
  = if Ascii.eqb char quoteChar
    then parseCSVLoop line result current (negb inQuotes)
    else if Ascii.eqb char commaChar && negb inQuotes
         then parseCSVLoop line (result ++ [trim current]) EmptyString inQuotes
         else parseCSVLoop line result (current ++ String char EmptyString)%string inQuotes.
Proof. reflexivity. Qed.

Lemma hasUnit_app c a b : hasUnit c (a ++ b) = hasUnit c a || hasUnit c b.
Proof.
  induction a as [|d a IH]; [reflexivity|].
  cbn [append]. now rewrite !hasUnit_cons, IH, orb_assoc.
Qed.

Lemma hasUnit_trimStart c s : hasUnit c s = false -> hasUnit c (trimStart s) = false.
Proof.
  induction s as [|d s IH]; [auto|]. intros H. cbn [trimStart].
  destruct (isWhiteSpace d); [|exact H].
  apply IH. now apply hasUnit_cons_false in H.
Qed.

Lemma hasUnit_trimEnd c s : hasUnit c s = false -> hasUnit c (trimEnd s) = false.
Proof.
  induction s as [|d s IH]; [auto|]. intros H.
  apply hasUnit_cons_false in H as [Hd Hs]. specialize (IH Hs). cbn [trimEnd].
  destruct (trimEnd s) as [|e x].
  - destruct (isWhiteSpace d); [reflexivity|]. rewrite hasUnit_cons, Hd. reflexivity.
  - rewrite hasUnit_cons, Hd, IH. reflexivity.
Qed.

Lemma hasUnit_trim c s : hasUnit c s = false -> hasUnit c (trim s) = false.
Proof. intros H. unfold trim. now apply hasUnit_trimEnd, hasUnit_trimStart. Qed.

(** The fields found so far are never touched again. *)
Lemma parseCSVLoop_result line :
  forall result current inQuotes,
    parseCSVLoop line result current inQuotes
    = result ++ parseCSVLoop line [] current inQuotes.
Proof.
  induction line as [|c line IH]; intros result current inQuotes; [reflexivity|].
  rewrite !parseCSVLoop_cons. destruct (Ascii.eqb c quoteChar); [apply IH|].
  destruct (Ascii.eqb c commaChar && negb inQuotes).
  - rewrite (IH (result ++ [trim current])), (IH ([] ++ [trim current])).
    now rewrite <- app_assoc.
  - apply IH.
Qed.

Lemma parseCSVLoop_plain line :
  forall current inQuotes f,
    hasUnit quoteChar current = false ->
    In f (parseCSVLoop line [] current inQuotes) -> plainField f.
Proof.
  induction line as [|c line IH]; intros current inQuotes f Hq.
  - cbn [parseCSVLoop app]. intros [<-|[]].
    split; [apply trim_idem | now apply hasUnit_trim].
  - rewrite parseCSVLoop_cons. destruct (Ascii.eqb c quoteChar) eqn:Ec; [now apply IH|].
    destruct (Ascii.eqb c commaChar && negb inQuotes).
    + rewrite parseCSVLoop_result. cbn [app]. intros [<-|H].
      * split; [apply trim_idem | now apply hasUnit_trim].
      * eapply IH; [|exact H]. reflexivity.
    + apply IH. rewrite hasUnit_app, Hq, hasUnit_cons, Ec. reflexivity.
Qed.

Lemma parseCSVLoop_nonempty line :
  forall result current inQuotes, parseCSVLoop line result current inQuotes <> [].
Proof.
  induction line as [|c line IH]; intros result current inQuotes.
  - cbn [parseCSVLoop]. destruct result; discriminate.
  - rewrite parseCSVLoop_cons. destruct (Ascii.eqb c quoteChar); [apply IH|].
    destruct (_ && _); apply IH.
Qed.

(** X16.  [parseCSVLine] always returns at least one field, and every field
    it returns is trimmed (trimming it again changes nothing) and contains
    no double quote. *)
Theorem parseCSVLine_fields_are_plain (line : string) :
  parseCSVLine line <> [] /\
  forall f, In f (parseCSVLine line) -> plainField f.
Proof.
  split; [apply parseCSVLoop_nonempty|].
  intros f. now apply parseCSVLoop_plain.
Qed.

(** X17.  On a line without double quotes every comma separates: the
    number of fields is one more than the number of commas. *)
Theorem parseCSVLine_counts_commas (line : string) :
  hasUnit quoteChar line = false ->
  List.length (parseCSVLine line) = S (countUnit commaChar line).
Proof.
  unfold parseCSVLine. generalize EmptyString as current.
  induction line as [|c line IH]; intros current Hq; [reflexivity|].
  apply hasUnit_cons_false in Hq as [Hc Hq].
  rewrite parseCSVLoop_cons, Hc, countUnit_cons.
  destruct (Ascii.eqb c commaChar); cbn [andb negb].
  - rewrite parseCSVLoop_result. cbn [app List.length Nat.add]. f_equal. now apply IH.
  - now apply IH.
Qed.

Lemma string_app_nil_r (s : string) : (s ++ "")%string = s.
Proof. induction s as [|c s IH]; [reflexivity | simpl; now rewrite IH]. Qed.

Lemma string_app_assoc (a b c : string) : ((a ++ b) ++ c)%string = (a ++ (b ++ c))%string.
Proof. induction a as [|x a IH]; [reflexivity | simpl; now rewrite IH]. Qed.

(** Outside quotes, text without commas and quotes is gathered into the
    current field. *)
Lemma parseCSVLoop_text f :
  forall tail result current,
    hasUnit quoteChar f = false -> hasUnit commaChar f = false ->
    parseCSVLoop (f ++ tail) result current false
    = parseCSVLoop tail result (current ++ f) false.
Proof.
  induction f as [|c f IH]; intros tail result current Hq Hc.
  - now rewrite string_app_nil_r.
  - apply hasUnit_cons_false in Hq as [Hq1 Hq]. apply hasUnit_cons_false in Hc as [Hc1 Hc].
    cbn [append]. rewrite parseCSVLoop_cons, Hq1, Hc1. cbn [andb].
    rewrite IH by assumption. f_equal. rewrite string_app_assoc. reflexivity.
Qed.

(** Inside quotes, text without quotes is gathered, commas included. *)
Lemma parseCSVLoop_quoted_text f :
  forall tail result current,
    hasUnit quoteChar f = false ->
    parseCSVLoop (f ++ tail) result current true
    = parseCSVLoop tail result (current ++ f) true.
Proof.
  induction f as [|c f IH]; intros tail result current Hq.
  - now rewrite string_app_nil_r.
  - apply hasUnit_cons_false in Hq as [Hq1 Hq].
    cbn [append]. rewrite parseCSVLoop_cons, Hq1. cbn [negb]. rewrite andb_false_r.
    rewrite IH by assumption. f_equal. rewrite string_app_assoc. reflexivity.
Qed.

Lemma concat_cons2 sep (f g : string) l :
  String.concat sep (f :: g :: l) = (f ++ sep ++ String.concat sep (g :: l))%string.
Proof. reflexivity. Qed.

Lemma parseCSVLoop_comma tail result current :
  parseCSVLoop ("," ++ tail) result current false
  = (result ++ [trim current]) ++ parseCSVLoop tail [] "" false.
Proof.
  change ("," ++ tail)%string with (String commaChar tail).
  rewrite parseCSVLoop_cons. cbn [andb negb].
  change (Ascii.eqb commaChar quoteChar) with false.
  change (Ascii.eqb commaChar commaChar) with true. cbn [andb].
  apply parseCSVLoop_result.
Qed.

Lemma parseCSVLoop_end result current inQuotes :
  parseCSVLoop "" result current inQuotes = result ++ [trim current].
Proof. reflexivity. Qed.

(** X18.  Round trip without quoting: fields that are trimmed and contain
    neither a comma nor a double quote, joined with commas, are parsed back
    into the same fields. *)
Theorem parseCSVLine_reads_back_joined_fields (fields : list string) :
  fields <> [] ->
  Forall (fun f => plainField f /\ hasUnit commaChar f = false) fields ->
  parseCSVLine (String.concat "," fields) = fields.
Proof.
  intros Hne Hall. unfold parseCSVLine.
  destruct fields as [|f fields]; [contradiction|]. clear Hne.
  revert f Hall. induction fields as [|g fields IH]; intros f Hall.
  - inversion Hall as [|? ? [[Ht Hq] Hc] _]; subst. cbn [String.concat].
    rewrite <- (string_app_nil_r f) at 1.
    rewrite parseCSVLoop_text, parseCSVLoop_end by assumption.
    cbn [append app]. now rewrite Ht.
  - inversion Hall as [|? ? [[Ht Hq] Hc] Hrest]; subst.
    rewrite concat_cons2, parseCSVLoop_text, parseCSVLoop_comma by assumption.
    cbn [append app]. rewrite Ht. f_equal. now apply IH.
Qed.

(** X19.  Round trip with quoting: fields that are trimmed and contain no
    double quote, each wrapped in double quotes and joined with commas, are
    parsed back into the same fields, commas inside them included. *)
Theorem parseCSVLine_reads_back_quoted_fields (fields : list string) :
  fields <> [] ->
  Forall plainField fields ->
  parseCSVLine (String.concat "," (map quoted fields)) = fields.
Proof.
  intros Hne Hall. unfold parseCSVLine.
  destruct fields as [|f fields]; [contradiction|]. clear Hne.
  assert (Hfield : forall f tail result,
             hasUnit quoteChar f = false ->
             parseCSVLoop (quoted f ++ tail) result "" false
             = parseCSVLoop tail result f false).
  { intros f0 tail result Hq. unfold quoted. cbn [append].
    rewrite parseCSVLoop_cons. change (Ascii.eqb quoteChar quoteChar) with true.
    cbv iota. cbn [negb].
    rewrite string_app_assoc, parseCSVLoop_quoted_text by assumption.
    cbn [append]. rewrite parseCSVLoop_cons.
    change (Ascii.eqb quoteChar quoteChar) with true. reflexivity. }
  revert f Hall. induction fields as [|g fields IH]; intros f Hall.
  - inversion Hall as [|? ? [Ht Hq] _]; subst. cbn [map String.concat].
    rewrite <- (string_app_nil_r (quoted f)), Hfield, parseCSVLoop_end by assumption.
    cbn [app]. now rewrite Ht.
  - inversion Hall as [|? ? [Ht Hq] Hrest]; subst.
    cbn [map]. rewrite concat_cons2, Hfield, parseCSVLoop_comma by assumption.
    cbn [app]. rewrite Ht. f_equal.
    apply (IH g Hrest).
Qed.

(** * [WeatherService.getCityWeather] *)

Section WeatherFacts.
Context {RT : Runtime} {PG : PgPool}.

(** X20.  [getCityWeather] sends its one query with the city name as the
    only parameter and releases the client whether the query returns or
    raises.  It returns the first row, or an object whose [error] names the
    city when there are no rows; an error of the query is thrown on, and so
    is the [TypeError] of reading the rows of an array of results. *)
Theorem getCityWeather_first_row_or_error
    (cityName : string) (w w1 w2 : World) (client : PoolClient)
    (res : string + Resolved) :
  pool_connect w = (inr client, w1) ->
  client_query client cityWeatherSql [VString cityName] w1 = (res, w2) ->
  getCityWeather cityName w
  = mkRan
      match res with
      | inl message => Thrown (Error message)
      | inr (OneResult result) =>
          Returned
            match rows result with
            | [] => VObject [("error", VString ("No weather data found for " ++ cityName))]
            | row :: _ => row
            end
      | inr (ManyResults _) => Thrown (Error (TypeError_message "length"))
      end (client_release client w2)
      (session client [(cityWeatherSql, [VString cityName])]).
Proof.
  intros Hc Hq. unfold getCityWeather, tryFinally, bind, connect, query.
  rewrite Hc. cbn [outcome world events]. rewrite Hq.
  destruct res as [message|[result|results]];
    cbn [outcome world events resultRows]; [reflexivity| |reflexivity].
  destruct (rows result); reflexivity.
Qed.

End WeatherFacts.

(** * The further properties on the sample pool *)

Lemma unknown_tool_iff_not_advertised_witness :
  @callTool sampleRuntime samplePool "drop_table" VUndefined sampleCatalog
  = @mkRan samplePool ToolResponse
      (Thrown (McpError MethodNotFound "Unknown tool: drop_table")) sampleCatalog [].
Proof.
  apply (proj1 (@unknown_tool_iff_not_advertised sampleRuntime samplePool
                  "drop_table" VUndefined sampleCatalog)).
  simpl. intuition discriminate.
Defined.

Lemma refused_connection_is_internal_error_witness :
  @callTool sampleRuntime refusingPool "list_tables" (VObject []) tt
  = @mkRan refusingPool ToolResponse
      (Thrown (McpError InternalError
                 "Failed to execute list_tables: connect ECONNREFUSED 127.0.0.1:5432"))
      tt [@EvConnectFailed refusingPool].
Proof.
  destruct (@refused_connection_is_internal_error sampleRuntime refusingPool
              "list_tables" (VObject []) tt tt
              "connect ECONNREFUSED 127.0.0.1:5432" eq_refl)
    as [(code & text & Ho & Hcode & _) | H].
  - exfalso. apply Hcode.
    assert (E : outcome (@callTool sampleRuntime refusingPool "list_tables" (VObject []) tt)
                = Thrown (McpError InternalError
                            "Failed to execute list_tables: connect ECONNREFUSED 127.0.0.1:5432"))
      by reflexivity.
    rewrite E in Ho. now injection Ho as <- _.
  - exact H.
Defined.

Lemma query_database_runs_statement_as_given_witness :
  events (@callTool sampleRuntime samplePool "query_database"
            (VObject [("sql", VString "select 1")]) sampleCatalog)
  = @session samplePool tt [("select 1"%string, [])].
Proof.
  rewrite (@query_database_runs_statement_as_given sampleRuntime samplePool
             [("sql"%string, VString "select 1")] "select 1" []
             sampleCatalog sampleCatalog sampleCatalog tt
             (sampleQuery "select 1" [] sampleCatalog));
    [reflexivity | reflexivity | discriminate | right; split; reflexivity
     | reflexivity | reflexivity | reflexivity].
Defined.

Lemma list_tables_binds_schema_as_parameter_witness :
  events (@callTool sampleRuntime samplePool "list_tables" (VObject []) sampleCatalog)
  = @session samplePool tt [(listTablesSql, [VString "public"])].
Proof.
  rewrite (@list_tables_binds_schema_as_parameter sampleRuntime samplePool
             [] "public" sampleCatalog sampleCatalog sampleCatalog tt
             (sampleQuery listTablesSql [VString "public"] sampleCatalog));
    [reflexivity | right; split; reflexivity | left; reflexivity
     | reflexivity | reflexivity].
Defined.

Lemma describe_table_runs_two_queries_in_order_witness :
  events (@callTool sampleRuntime samplePool "describe_table"
            (VObject [("table", VString "weather_data")]) sampleCatalog)
  = @session samplePool tt
      [ (columnsSql, [VString "public"; VString "weather_data"]);
        (constraintsSql, [VString "public"; VString "weather_data"]) ].
Proof.
  rewrite (@describe_table_runs_two_queries_in_order sampleRuntime samplePool
             [("table"%string, VString "weather_data")] "public" "weather_data"
             sampleCatalog sampleCatalog sampleCatalog sampleCatalog tt
             (sampleQuery columnsSql [VString "public"; VString "weather_data"] sampleCatalog)
             (sampleQuery constraintsSql [VString "public"; VString "weather_data"]
                sampleCatalog));
    [reflexivity | right; split; reflexivity | reflexivity
     | reflexivity | reflexivity | reflexivity].
Defined.

(** A table name that carries a second statement goes into the text as it is. *)
Lemma get_table_data_puts_names_into_sql_witness :
  events (@callTool sampleRuntime samplePool "get_table_data"
            (VObject [("table", VString "t; DROP TABLE weather_data --")]) sampleCatalog)
  = @session samplePool tt
      [("SELECT * FROM public.t; DROP TABLE weather_data -- LIMIT $1"%string,
        [VNumber ten])].
Proof.
  rewrite (@get_table_data_puts_names_into_sql sampleRuntime samplePool
             [("table"%string, VString "t; DROP TABLE weather_data --")]
             "public" "t; DROP TABLE weather_data --" ten
             sampleCatalog sampleCatalog sampleCatalog tt
             (sampleQuery "SELECT * FROM public.t; DROP TABLE weather_data -- LIMIT $1"
                [VNumber ten] sampleCatalog));
    [reflexivity | reflexivity | discriminate | right; split; reflexivity
     | right; split; reflexivity | reflexivity | reflexivity].
Defined.

Lemma undeclared_arguments_are_ignored_witness :
  @callTool sampleRuntime samplePool "list_tables"
    (VObject [("schema", VString "audit"); ("verbose", VBool true)]) sampleCatalog
  = @callTool sampleRuntime samplePool "list_tables"
      (VObject [("schema", VString "audit")]) sampleCatalog.
Proof.
  apply (@undeclared_arguments_are_ignored sampleRuntime samplePool "list_tables").
  simpl. intros k [<-|[<-|[]]]; reflexivity.
Defined.

Lemma advertised_defaults_are_applied_witness :
  @callTool sampleRuntime samplePool "get_table_data"
    (VObject [("limit", VNumber ten); ("table", VString "weather_data")]) sampleCatalog
  = @callTool sampleRuntime samplePool "get_table_data"
      (VObject [("table", VString "weather_data")]) sampleCatalog.
Proof.
  apply (@advertised_defaults_are_applied sampleRuntime samplePool
           (nth 3 tools (mkTool "" "" VNull)) "limit" (VNumber ten)
           [("table"%string, VString "weather_data")] sampleCatalog).
  - simpl. tauto.
  - simpl. tauto.
  - reflexivity.
Defined.

Lemma advertised_required_are_enforced_witness :
  @failsInvalidParams samplePool
    (@callTool sampleRuntime samplePool "query_database"
       (VObject [("params", VArray [])]) sampleCatalog)
    sampleCatalog.
Proof.
  apply (@advertised_required_are_enforced sampleRuntime samplePool
           (nth 0 tools (mkTool "" "" VNull)) "sql"
           (VObject [("params", VArray [])]) sampleCatalog).
  - simpl. tauto.
  - simpl. tauto.
  - reflexivity.
Defined.

Lemma arguments_must_be_an_object_witness :
  @failsInvalidParams samplePool
    (@callTool sampleRuntime samplePool "list_tables" VUndefined sampleCatalog)
    sampleCatalog.
Proof.
  apply (@arguments_must_be_an_object sampleRuntime samplePool "list_tables" VUndefined
           sampleCatalog).
  - simpl. tauto.
  - discriminate.
Defined.

Lemma ill_typed_argument_is_refused_witness :
  @failsInvalidParams samplePool
    (@callTool sampleRuntime samplePool "get_table_data"
       (VObject [("table", VString "weather_data"); ("limit", VString "5")]) sampleCatalog)
    sampleCatalog.
Proof.
  apply (@ill_typed_argument_is_refused sampleRuntime samplePool
           (nth 3 tools (mkTool "" "" VNull)) "limit" "number"
           [("table"%string, VString "weather_data"); ("limit"%string, VString "5")]
           sampleCatalog).
  - simpl. tauto.
  - reflexivity.
  - discriminate.
  - discriminate.
Defined.

Lemma guard_rejects_only_mutating_statements_witness :
  containsKeyword "DROP TABLE weather_data" /\
  beginsWithSelect "DROP TABLE weather_data" = false.
Proof. exact (guard_rejects_only_mutating_statements "DROP TABLE weather_data" eq_refl). Defined.

Lemma statement_without_white_space_passes_guard_witness :
  isDangerous "DROP/**/TABLE/**/weather_data" = false /\
  guardRejects "DROP/**/TABLE/**/weather_data" = false.
Proof.
  exact (statement_without_white_space_passes_guard "DROP/**/TABLE/**/weather_data" eq_refl).
Defined.

Lemma guard_ignores_letter_case_witness :
  guardRejects "Drop Table weather_data" = guardRejects "dROP tABLE WEATHER_DATA".
Proof.
  apply (guard_ignores_letter_case "Drop Table weather_data" "dROP tABLE WEATHER_DATA").
  reflexivity.
Defined.

Lemma parseCSVLine_counts_commas_witness :
  List.length (parseCSVLine "0.0,2016-01-03,,Birmingham") = 4.
Proof. exact (parseCSVLine_counts_commas "0.0,2016-01-03,,Birmingham" eq_refl). Defined.

Lemma parseCSVLine_reads_back_joined_fields_witness :
  parseCSVLine (String.concat "," ["2016-01-03"; ""; "Birmingham AL"])
  = ["2016-01-03"; ""; "Birmingham AL"]%string.
Proof.
  apply parseCSVLine_reads_back_joined_fields; [discriminate|].
  repeat constructor.
Defined.

Lemma parseCSVLine_reads_back_quoted_fields_witness :
  parseCSVLine (String.concat "," (map quoted ["Birmingham, AL"; "BHM"]))
  = ["Birmingham, AL"; "BHM"]%string.
Proof.
  apply parseCSVLine_reads_back_quoted_fields; [discriminate|].
  repeat constructor.
Defined.

Lemma getCityWeather_first_row_or_error_witness :
  outcome (@getCityWeather sampleRuntime samplePool "Tokyo" sampleCatalog)
  = Returned (VObject [("error", VString "No weather data found for Tokyo")]).
Proof.
  rewrite (@getCityWeather_first_row_or_error sampleRuntime samplePool "Tokyo"
             sampleCatalog sampleCatalog sampleCatalog tt
             (sampleQuery cityWeatherSql [VString "Tokyo"] sampleCatalog));
    reflexivity.
Defined.
